(** * Edge saliency and interest-point extraction ([triangler/edges.py])

    A shallow embedding of [EdgePoints], [Canny], [Entropy] and [Sobel],
    together with the properties of their weight maps.

    Conventions of the embedding.
    - A float is an exact rational or one of the IEEE special values
      ([fval]); rounding and the sign of zero are not modelled, so a
      statement "equal within floating tolerance" becomes an equality of
      rationals ([feq]).  Where the last bits decide, the normalisation of
      [Entropy.compute] is modelled a second time with divisions rounded
      to binary64 ([Binary64]).
    - An [ndarray] is a nested list; its shape is read off the lists, and a
      well-formed image is rectangular ([rgb_image]).
    - Arrays live in a [heap] and are passed by reference, because the
      source updates some of them in place ([edge[idx] = 0], [dense /= ...],
      [weight /= ...], [g *= ...]).
    - Python exceptions are the [Raised] outcomes of the monad [M].
    - The [numba.jit] decorators do not change what the functions compute
      and are left out. *)

From Stdlib Require Import Ascii String.
From Stdlib Require Import List ZArith QArith Qround Bool Lia Lqa.
Import ListNotations.

Open Scope string_scope.
Open Scope Q_scope.

(* ================================================================== *)
(** ** Floats *)

Inductive fval : Type :=
| Fin (q : Q)
| PInf
| NInf
| NaN.

Definition feq (x y : fval) : Prop :=
  match x, y with
  | Fin a, Fin b => a == b
  | PInf, PInf | NInf, NInf | NaN, NaN => True
  | _, _ => False
  end.

Definition is_nan (x : fval) : bool :=
  match x with NaN => true | _ => false end.

(** The result of an arithmetic operation is stored in lowest terms: a float
    has one representation. *)
Definition fin (q : Q) : fval := Fin (Qred q).

Definition fadd (x y : fval) : fval :=
  match x, y with
  | NaN, _ | _, NaN => NaN
  | Fin a, Fin b => fin (a + b)
  | PInf, NInf | NInf, PInf => NaN
  | PInf, _ | _, PInf => PInf
  | NInf, _ | _, NInf => NInf
  end.

Definition fopp (x : fval) : fval :=
  match x with
  | Fin a => fin (- a)
  | PInf => NInf
  | NInf => PInf
  | NaN => NaN
  end.

Definition fsub (x y : fval) : fval := fadd x (fopp y).

(** The infinity of sign [s] scaled by the rational [a]. *)
Definition scale_inf (positive : bool) (a : Q) : fval :=
  match a ?= 0 with
  | Eq => NaN
  | Gt => if positive then PInf else NInf
  | Lt => if positive then NInf else PInf
  end.

Definition fmul (x y : fval) : fval :=
  match x, y with
  | NaN, _ | _, NaN => NaN
  | Fin a, Fin b => fin (a * b)
  | Fin a, PInf | PInf, Fin a => scale_inf true a
  | Fin a, NInf | NInf, Fin a => scale_inf false a
  | PInf, PInf | NInf, NInf => PInf
  | PInf, NInf | NInf, PInf => NInf
  end.

(** numpy's float division: a zero divisor gives an infinity or NaN (and a
    RuntimeWarning), never an exception. *)
Definition fdiv (x y : fval) : fval :=
  match x, y with
  | NaN, _ | _, NaN => NaN
  | Fin a, Fin b =>
      match b ?= 0 with
      | Eq => match a ?= 0 with Eq => NaN | Gt => PInf | Lt => NInf end
      | _ => fin (a / b)
      end
  | Fin _, (PInf | NInf) => Fin 0
  | PInf, Fin b => match b ?= 0 with Lt => NInf | _ => PInf end
  | NInf, Fin b => match b ?= 0 with Lt => PInf | _ => NInf end
  | (PInf | NInf), (PInf | NInf) => NaN
  end.

(** [x < y] on floats: false as soon as one side is NaN. *)
Definition flt (x y : fval) : bool :=
  match x, y with
  | NaN, _ | _, NaN => false
  | Fin a, Fin b => match a ?= b with Lt => true | _ => false end
  | NInf, (Fin _ | PInf) => true
  | Fin _, PInf => true
  | _, _ => false
  end.

(** The maximum that [np.amax] folds with: NaN wins. *)
Definition fmax (x y : fval) : fval :=
  match x, y with
  | NaN, _ | _, NaN => NaN
  | _, _ => if flt x y then y else x
  end.

Definition fsum (l : list fval) : fval := fold_right fadd (Fin 0) l.

Definition of_Z (z : Z) : fval := Fin (inject_Z z).
Definition of_nat (n : nat) : fval := of_Z (Z.of_nat n).

(* ================================================================== *)
(** ** Arrays *)

Definition array2 : Type := list (list fval).
Definition array3 : Type := list (list (list fval)).

Inductive ndarray : Type :=
| A2 (a : array2)
| A3 (a : array3).

Definition as2 (a : ndarray) : array2 :=
  match a with A2 x => x | A3 _ => [] end.

(** [a.shape[0]] and [a.shape[1]]. *)
Definition shape0 (a : ndarray) : nat :=
  match a with A2 x => length x | A3 x => length x end.
Definition shape1 (a : ndarray) : nat :=
  match a with
  | A2 x => length (hd [] x)
  | A3 x => length (hd [] x)
  end.

Definition width2 (a : array2) : nat := length a.
Definition height2 (a : array2) : nat := length (hd [] a).

Definition at2 (a : array2) (i j : nat) : fval := nth j (nth i a []) (Fin 0).

Fixpoint upd_nth {A : Type} (n : nat) (v : A) (l : list A) : list A :=
  match l, n with
  | [], _ => []
  | _ :: t, O => v :: t
  | x :: t, S m => x :: upd_nth m v t
  end.

(** [a[i, j] = v] *)
Definition set2 (a : array2) (i j : nat) (v : fval) : array2 :=
  upd_nth i (upd_nth j v (nth i a [])) a.

Definition map2d (f : fval -> fval) (a : array2) : array2 := map (map f) a.

Fixpoint zip_with {A B C : Type} (f : A -> B -> C) (l : list A) (m : list B)
  : list C :=
  match l, m with
  | x :: l', y :: m' => f x y :: zip_with f l' m'
  | _, _ => []
  end.

(** Element-wise [a + b] and [a * b] of arrays of one shape, and
    [c * a], [a / c] with a scalar [c]. *)
Definition add2 (a b : array2) : array2 := zip_with (zip_with fadd) a b.
Definition mul2 (a b : array2) : array2 := zip_with (zip_with fmul) a b.
Definition scale2 (c : fval) (a : array2) : array2 := map2d (fmul c) a.
Definition times2 (a : array2) (c : fval) : array2 :=
  map2d (fun x => fmul x c) a.
Definition div2 (a : array2) (c : fval) : array2 :=
  map2d (fun x => fdiv x c) a.

(** The array of shape [(w, h)] that holds [v] everywhere, and
    [np.ones((w, h))]. *)
Definition full (w h : nat) (v : fval) : array2 := repeat (repeat v h) w.
Definition ones (w h : nat) : array2 := full w h (Fin 1).

(** [im[:, :, k]] *)
Definition channel (k : nat) (im : array3) : array2 :=
  map (map (fun px => nth k px (Fin 0))) im.

Definition array2_eq (a b : array2) : Prop := Forall2 (Forall2 feq) a b.

(** Every row has the length of the first one. *)
Definition rect (a : array2) : Prop :=
  Forall (fun row => length row = height2 a) a.

Definition finite (x : fval) : Prop := exists q, x = Fin q.
Definition nonneg (x : fval) : Prop := exists q, x = Fin q /\ 0 <= q.

(** A well-formed RGB image: [W] x [H] pixels, [W, H >= 1], three channels,
    finite samples. *)
Definition rgb_image (im : array3) : Prop :=
  (0 < length im)%nat /\ (0 < length (hd [] im))%nat /\
  Forall (fun col => length col = length (hd [] im) /\
            Forall (fun px => length px = 3%nat /\ Forall finite px) col)
         im.

(** A solid-colour image. *)
Definition solid (w h : nat) (px : list fval) : array3 :=
  repeat (repeat px h) w.

(* ================================================================== *)
(** ** Exceptions, the heap and the monad *)

Inductive fmtarg : Type :=
| Str (s : string)
| Names (l : list string).

Inductive exn : Type :=
| UserWarning (msg : string)
| ValueError (msg : string) (args : list fmtarg)
| IndexError (msg : string)
| AssertionError.

Inductive outcome (A : Type) : Type :=
| Returned (a : A)
| Raised (e : exn).
Arguments Returned {A} a.
Arguments Raised {A} e.

Definition ref : Type := nat.

(** Every Python reference denotes an object, so the heap is total; [next]
    is the first address not yet allocated. *)
Record heap : Type := mkHeap {
  cells : ref -> ndarray;
  next : ref
}.

Definition upd (f : ref -> ndarray) (r : ref) (a : ndarray) : ref -> ndarray :=
  fun r' => if Nat.eqb r' r then a else f r'.

Definition M (A : Type) : Type := heap -> outcome A * heap.

Definition ret {A : Type} (a : A) : M A := fun h => (Returned a, h).

Definition raise {A : Type} (e : exn) : M A := fun h => (Raised e, h).

Definition bind {A B : Type} (m : M A) (f : A -> M B) : M B :=
  fun h =>
    match m h with
    | (Returned a, h') => f a h'
    | (Raised e, h') => (Raised e, h')
    end.

Notation "x <- m ;; k" := (bind m (fun x => k))
  (at level 61, m at next level, right associativity).
Notation "m ;;; k" := (bind m (fun _ => k))
  (at level 61, right associativity).

(** Allocation of a fresh array object. *)
Definition new (a : ndarray) : M ref :=
  fun h => (Returned (next h),
            {| cells := upd (cells h) (next h) a; next := S (next h) |}).

Definition get (r : ref) : M ndarray := fun h => (Returned (cells h r), h).

(** In-place update of the object behind [r]. *)
Definition put (r : ref) (a : ndarray) : M unit :=
  fun h => (Returned tt, {| cells := upd (cells h) r a; next := next h |}).

Definition lift {A : Type} (o : outcome A) : M A := fun h => (o, h).

(** [h'] extends [h]: the objects of [h] are where they were, unchanged. *)
Definition extends (h h' : heap) : Prop :=
  (next h <= next h')%nat /\
  forall r, (r < next h)%nat -> cells h' r = cells h r.

(* ================================================================== *)
(** ** The library functions the source calls *)

(** [np.amax] / [np.max] of a whole array; a zero-size array has no
    maximum. *)
Definition amax (a : array2) : outcome fval :=
  match concat a with
  | [] => Raised (ValueError
            "zero-size array to reduction operation maximum which has no identity" [])
  | x :: l => Returned (fold_left fmax l x)
  end.

(** [np.mean] of a whole array. *)
Definition mean (a : array2) : fval :=
  fdiv (fsum (concat a)) (of_nat (length (concat a))).

(** [skimage.color.rgb2gray]: the luminance [0.2125 R + 0.7154 G + 0.0721 B]
    of each pixel; a 2-D array is already grey. *)
Definition luma (px : list fval) : fval :=
  fadd (fadd (fmul (Fin (2125 # 10000)) (nth 0 px (Fin 0)))
             (fmul (Fin (7154 # 10000)) (nth 1 px (Fin 0))))
       (fmul (Fin (721 # 10000)) (nth 2 px (Fin 0))).

Definition rgb2gray (a : ndarray) : array2 :=
  match a with
  | A2 g => g
  | A3 im => map (map luma) im
  end.

(** Symmetric extension of the index range [0, n): the array is mirrored at
    each border, the border sample included ([d c b a | a b c d | d c b a]). *)
Definition symm (n : nat) (i : Z) : nat :=
  let p := (2 * Z.of_nat n)%Z in
  let r := (i mod p)%Z in
  Z.to_nat (if (r <? Z.of_nat n)%Z then r else (p - 1 - r)%Z).

(** [scipy.signal.convolve2d(src, ker, mode="same", boundary="symm")]:
    output cell [(i, j)] is the sum over the kernel of
    [ker[a, b] * src[i + (kh - 1) / 2 - a, j + (kw - 1) / 2 - b]], indices
    outside [src] being reflected. *)
Definition conv_cell (src ker : array2) (i j : nat) : fval :=
  let W := width2 src in
  let H := height2 src in
  let kh := width2 ker in
  let kw := height2 ker in
  fsum
    (flat_map
       (fun a =>
          map (fun b =>
                 fmul (at2 ker a b)
                      (at2 src
                         (symm W (Z.of_nat i + (Z.of_nat kh - 1) / 2 - Z.of_nat a))
                         (symm H (Z.of_nat j + (Z.of_nat kw - 1) / 2 - Z.of_nat b))))
              (seq 0 kw))
       (seq 0 kh)).

Definition convolve2d (src ker : array2) : array2 :=
  map (fun i => map (fun j => conv_cell src ker i j) (seq 0 (height2 src)))
      (seq 0 (width2 src)).

(** The value of every cell of the convolution when [src] holds [v]
    everywhere. *)
Definition conv_const (ker : array2) (v : fval) : fval :=
  fsum
    (flat_map
       (fun a => map (fun b => fmul (at2 ker a b) v) (seq 0 (height2 ker)))
       (seq 0 (width2 ker))).

(** [np.ones(shape=(k, k))] for an integer [k]. *)
Definition np_ones (k : Z) : outcome array2 :=
  if (k <? 0)%Z
  then Raised (ValueError "negative dimensions are not allowed" [])
  else Returned (ones (Z.to_nat k) (Z.to_nat k)).

(** The index sequence of [np.ndenumerate]: row-major over the shape. *)
Definition ndindex (a : array2) : list (nat * nat) :=
  flat_map (fun i => map (pair i) (seq 0 (height2 a))) (seq 0 (width2 a)).

Definition idx_eq_dec (p q : nat * nat) : {p = q} + {p <> q}.
Proof. decide equality; apply Nat.eq_dec. Defined.

(* ================================================================== *)
(** ** [class Canny] *)

Module Canny.

Definition threshold : fval := fdiv (Fin 3) (Fin 256).

Definition edge_filt : array2 :=
  [[Fin 1; Fin 1; Fin 1]; [Fin 1; Fin (-8); Fin 1]; [Fin 1; Fin 1; Fin 1]].

(** [np.ones(shape=(2*blur+1, 2*blur+1)) / ((2*blur+1) ** 2)] *)
Definition blur_filt (blur : Z) : outcome array2 :=
  match np_ones (2 * blur + 1) with
  | Returned o => Returned (div2 o (of_Z ((2 * blur + 1) ^ 2)))
  | Raised e => Raised e
  end.

(** [for idx, val in np.ndenumerate(edge): if val < threshold: edge[idx] = 0] *)
Fixpoint threshold_loop (edge : ref) (idxs : list (nat * nat)) : M unit :=
  match idxs with
  | [] => ret tt
  | (i, j) :: rest =>
      a <- get edge ;;
      (if flt (at2 (as2 a) i j) threshold
       then put edge (A2 (set2 (as2 a) i j (Fin 0)))
       else ret tt) ;;;
      threshold_loop edge rest
  end.

(** [blurred], from [gray_img = rgb2gray(img)] and [blur_filt]. *)
Definition blurred (im : ndarray) (blur : Z) : outcome array2 :=
  let gray_img := rgb2gray im in
  match blur_filt blur with
  | Returned blur_filt => Returned (convolve2d gray_img blur_filt)
  | Raised e => Raised e
  end.

(** One iteration of the loop, and the whole loop, as functions on the
    array behind [edge]. *)
Definition threshold_step (a : array2) (idx : nat * nat) : array2 :=
  let (i, j) := idx in
  if flt (at2 a i j) threshold then set2 a i j (Fin 0) else a.

Definition threshold_steps (idxs : list (nat * nat)) (a : array2) : array2 :=
  fold_left threshold_step idxs a.

(** What the loop does to one value. *)
Definition clamp (v : fval) : fval :=
  if flt v threshold then Fin 0 else v.

(** [dense] before it is normalised, from [blurred]. *)
Definition dense_of (blurred : array2) : array2 :=
  convolve2d (map2d clamp (convolve2d blurred edge_filt)) (ones 3 3).

Definition compute (img : ref) (blur : Z) : M ref :=
  im <- get img ;;
  blurred <- lift (blurred im blur) ;;
  edge <- new (A2 (convolve2d blurred edge_filt)) ;;
  e0 <- get edge ;;
  threshold_loop edge (ndindex (as2 e0)) ;;;
  e1 <- get edge ;;
  let dense_filt := ones 3 3 in
  dense <- new (A2 (convolve2d (as2 e1) dense_filt)) ;;
  d <- get dense ;;
  m <- lift (amax (as2 d)) ;;
  put dense (A2 (div2 (as2 d) m)) ;;;
  ret dense.

End Canny.

(* ================================================================== *)
(** ** The image library and the samplers *)

(** The functions of scikit-image and numpy that [Entropy] and [Sobel] call
    and whose values the properties below do not depend on.  Each returns a
    fresh array and leaves its arguments alone. *)
Class ImageLib : Type := {
  denoise_tv_bregman : ndarray -> fval -> ndarray;
  rgb2lab : ndarray -> array3;
  img_as_ubyte : array2 -> array2;
  img_as_float64 : array2 -> array2;
  entropy : array2 -> array2 -> array2;
  disk : Z -> array2;
  dilation : array2 -> array2 -> array2;
  gaussian : array2 -> array2;
  scharr : array2 -> array2;
  np_sqrt : fval -> fval
}.

Definition point : Type := (Z * Z)%type.

(** Modelled from the spec: the enumeration [SampleMethod] of
    [triangler/sampling.py], which is not part of the sources at hand; the
    spec gives it the two members Poisson-disk and threshold, and
    [get_edge_points] names them [POISSON_DISK] and [THRESHOLD]. *)
Inductive SampleMethod : Type :=
| POISSON_DISK
| THRESHOLD.

Definition SampleMethod_name : string := "SampleMethod".
Definition SampleMethod_members : list string := ["POISSON_DISK"; "THRESHOLD"].

(** The two sampling strategies of [triangler/sampling.py], taken as
    parameters: from a point count and a weight map to the sampled points,
    or an exception. *)
Class Sampling : Type := {
  poisson_disk_sample : Z -> array2 -> outcome (list point);
  threshold_sample : Z -> array2 -> fval -> outcome (list point)
}.

(* ================================================================== *)
(** ** [class Entropy] *)

Module Entropy.
Section WithLib.
Context {lib : ImageLib}.

Definition default_bal : fval := Fin (1 # 10).

(** [np.mean(np.array(l), axis=0)] *)
Definition mean_axis0 (l : list array2) : array2 :=
  match l with
  | [] => []
  | a :: rest => div2 (fold_left add2 rest a) (of_nat (length l))
  end.

(** [(bal * entropy_img) + ((1 - bal) * edges_img)] *)
Definition blend (im : ndarray) (bal : fval) : array2 :=
  let dn_img := denoise_tv_bregman im (Fin (1 # 10)) in
  let img_gray := rgb2gray dn_img in
  let img_lab := rgb2lab dn_img in
  let entropy_img :=
    gaussian
      (img_as_float64
         (dilation (entropy (img_as_ubyte img_gray) (disk 5)) (disk 5))) in
  let edges_img :=
    dilation
      (mean_axis0 (map (fun c => scharr (channel c img_lab)) (seq 0 3)))
      (disk 3) in
  add2 (scale2 bal entropy_img) (scale2 (fsub (Fin 1) bal) edges_img).

Definition compute (img : ref) (bal : fval) : M ref :=
  im <- get img ;;
  weight <- new (A2 (blend im bal)) ;;
  w <- get weight ;;
  put weight (A2 (div2 (as2 w) (mean (as2 w)))) ;;;
  w <- get weight ;;
  m <- lift (amax (as2 w)) ;;
  put weight (A2 (div2 (as2 w) m)) ;;;
  ret weight.

End WithLib.
End Entropy.

(* ================================================================== *)
(** ** [class Sobel] *)

Module Sobel.
Section WithLib.
Context {lib : ImageLib}.

Definition ints (l : list (list Z)) : array2 := map (map of_Z) l.

Definition kh3 : array2 := ints [[-1; 0; 1]; [-2; 0; 2]; [-1; 0; 1]]%Z.
Definition kv3 : array2 := ints [[1; 2; 1]; [0; 0; 0]; [-1; -2; -1]]%Z.
Definition kh5 : array2 :=
  ints [[-1; -2; 0; 2; 1];
        [-4; -8; 0; 8; 4];
        [-6; -12; 0; 12; 6];
        [-4; -8; 0; 8; 4];
        [-1; -2; 0; 2; 1]]%Z.
Definition kv5 : array2 :=
  ints [[1; 4; 6; 4; 1];
        [2; 8; 12; 8; 2];
        [0; 0; 0; 0; 0];
        [-2; -8; -12; -8; -2];
        [-1; -4; -6; -4; -1]]%Z.

(** [0.2126 * im[:, :, 0] + 0.7152 * im[:, :, 1] + 0.0722 * im[:, :, 2]] *)
Definition luminance (im : array3) : array2 :=
  add2 (add2 (scale2 (Fin (2126 # 10000)) (channel 0 im))
             (scale2 (Fin (7152 # 10000)) (channel 1 im)))
       (scale2 (Fin (722 # 10000)) (channel 2 im)).

(** [convolve2d] accepts 2-D arrays only. *)
Definition convolve2d_checked (a : ndarray) (ker : array2) : outcome array2 :=
  match a with
  | A2 g => Returned (convolve2d g ker)
  | A3 _ => Raised (ValueError "convolve2d inputs must both be 2-D arrays" [])
  end.

(** [np.sqrt(gx * gx + gy * gy)] *)
Definition magnitude (gx gy : array2) : array2 :=
  map2d np_sqrt (add2 (mul2 gx gx) (mul2 gy gy)).

(** The gradient magnitude [g] of an RGB image before it is rescaled. *)
Definition g_of (im : array3) (k_size : Z) : array2 :=
  let '(kh, kv) := if (k_size =? 3)%Z then (kh3, kv3) else (kh5, kv5) in
  magnitude (convolve2d (luminance im) kh) (convolve2d (luminance im) kv).

Definition compute (img : ref) (k_size : Z) : M ref :=
  a <- get img ;;
  match a with
  | A2 _ => raise (ValueError "not enough values to unpack (expected 3, got 2)" [])
  | A3 im =>
      let c := length (hd [] (hd [] im)) in
      img1 <- (if (1 <? c)%nat
               then if (c <? 3)%nat
                    then raise (IndexError
                           "index 2 is out of bounds for axis 2 with size 2")
                    else ret (A2 (luminance im))
               else ret (A3 im)) ;;
      (if (k_size =? 3)%Z || (k_size =? 5)%Z
       then ret tt else raise AssertionError) ;;;
      let '(kh, kv) := if (k_size =? 3)%Z then (kh3, kv3) else (kh5, kv5) in
      gx <- lift (convolve2d_checked img1 kh) ;;
      gy <- lift (convolve2d_checked img1 kv) ;;
      g <- new (A2 (magnitude gx gy)) ;;
      g0 <- get g ;;
      m <- lift (amax (as2 g0)) ;;
      put g (A2 (times2 (as2 g0) (fdiv (Fin 255) m))) ;;;
      ret g
  end.

End WithLib.
End Sobel.

(* ================================================================== *)
(** ** [class EdgeMethod] and [class EdgePoints] *)

Inductive EdgeMethod : Type :=
| CANNY
| ENTROPY
| SOBEL.

(** What a caller can pass where a member of an enumeration [E] is
    expected: a member, or any other Python object (given by its [str]). *)
Inductive selector (E : Type) : Type :=
| Member (m : E)
| Foreign (shown : string).
Arguments Member {E} m.
Arguments Foreign {E} shown.

(** Python 3 [round] of a float to an integer: to nearest, ties to even. *)
Definition py_round (x : Q) : Z :=
  let f := Qfloor x in
  match Qcompare (x - inject_Z f) (1 # 2) with
  | Lt => f
  | Gt => (f + 1)%Z
  | Eq => if Z.even f then f else (f + 1)%Z
  end.

Definition nl : string := String (ascii_of_nat 10) EmptyString.

Module EdgePoints.

Record t : Type := mk {
  img : ref;
  width : Z;
  height : Z;
  num_of_points : Z;
  edge_method : selector EdgeMethod
}.

(** [round(self.width * self.height * 0.5)] *)
Definition max_points (width height : Z) : Z :=
  py_round (inject_Z (width * height) * (5 # 10)).

(** [__init__] *)
Definition init (img : ref) (n : Z) (edge : selector EdgeMethod) : M t :=
  a <- get img ;;
  let width := Z.of_nat (shape0 a) in
  let height := Z.of_nat (shape1 a) in
  if (n >? max_points width height)%Z
  then raise (UserWarning "The number of points is too large")
  else ret {| img := img; width := width; height := height;
              num_of_points := n; edge_method := edge |}.

Definition corners (self : t) : list point :=
  [(0, 0); (0, height self - 1); (width self - 1, 0);
   (width self - 1, height self - 1)]%Z.

Section WithLib.
Context {lib : ImageLib} {samplers : Sampling}.

Definition get_edge_points (self : t) (blur : Z)
    (sampling : selector SampleMethod) : M (list point) :=
  edges <- match edge_method self with
           | Member CANNY => Canny.compute (img self) blur
           | Member ENTROPY => Entropy.compute (img self) Entropy.default_bal
           | Member SOBEL => Sobel.compute (img self) 5
           | Foreign shown =>
               raise (ValueError
                        ("Unexpected edge processing method: {}" ++ nl ++
                         "use {} instead: {}")
                        [Str shown; Str SampleMethod_name;
                         Names SampleMethod_members])
           end ;;
  e <- get edges ;;
  sample_points <-
    match sampling with
    | Member POISSON_DISK =>
        lift (poisson_disk_sample (num_of_points self) (as2 e))
    | Member THRESHOLD =>
        lift (threshold_sample (num_of_points self) (as2 e) (Fin (2 # 10)))
    | Foreign shown =>
        raise (ValueError
                 ("Unexpected sampling method: {}" ++ nl ++
                  "use {} instead: {}")
                 [Str shown; Str SampleMethod_name;
                  Names SampleMethod_members])
    end ;;
  ret (sample_points ++ corners self)%list.

End WithLib.
End EdgePoints.

(* ================================================================== *)
(** ** Notions the properties are stated with *)

(** All pixels of the image are the same. *)
Definition constant (im : array3) : Prop :=
  exists px, Forall (Forall (eq px)) im.


(** Division of a map by its maximum, and nothing else. *)
Definition max_normalised (w : array2) : outcome array2 :=
  match amax w with
  | Returned m => Returned (div2 w m)
  | Raised e => Raised e
  end.

(** ** Inputs of the closed examples *)

Module Examples.

Definition grey (q : Q) : list fval := [Fin q; Fin q; Fin q].

(** The heap whose only object is [a], at address 0. *)
Definition heap_of (a : ndarray) : heap :=
  {| cells := fun _ => a; next := 1%nat |}.

(** A 3 x 3 black image whose centre pixel is brighter by a thousandth. *)
Definition low_contrast : array3 :=
  [[grey 0; grey 0; grey 0];
   [grey 0; grey (1 # 1000); grey 0];
   [grey 0; grey 0; grey 0]].

(** A 2 x 2 black image with one white pixel. *)
Definition one_white : array3 := [[grey 0; grey 1]; [grey 0; grey 0]].

Definition solid10 : array3 := solid 10 10 (grey (1 # 2)).

(** A square root rounded down to a multiple of [2^-16]. *)
Definition sqrt_floor (x : fval) : fval :=
  match x with
  | Fin q =>
      fin (inject_Z (Z.sqrt (Qnum q * QDen q * 4 ^ 16))
           / inject_Z (QDen q * 2 ^ 16))
  | y => y
  end.

(** An image library whose filters return their argument. *)
Definition plain_lib : ImageLib := {|
  denoise_tv_bregman a _ := a;
  rgb2lab a := match a with A3 x => x | A2 _ => [] end;
  img_as_ubyte a := a;
  img_as_float64 a := a;
  entropy a _ := a;
  disk _ := [];
  dilation a _ := a;
  gaussian a := a;
  scharr a := a;
  np_sqrt := sqrt_floor
|}.

(** Samplers that return one point, and none. *)
Definition plain_samplers : Sampling := {|
  poisson_disk_sample _ _ := Returned [(1, 1)%Z];
  threshold_sample _ _ _ := Returned []
|}.

End Examples.

(* ================================================================== *)
(** ** Notions of the further properties *)

(** [a] has shape [(w, h)]. *)
Definition shape2 (w h : nat) (a : array2) : Prop :=
  length a = w /\ Forall (fun row => length row = h) a.

(** Every cell of [a] is a number between [lo] and [hi]. *)
Definition within (lo hi : Q) (a : array2) : Prop :=
  Forall (Forall (fun x => exists q, x = Fin q /\ lo <= q <= hi)) a.

Section Dispatch.
Context {lib : ImageLib}.

(** The first statement of [get_edge_points]: the dispatch on
    [self.edge_method] that yields [edges]. *)
Definition edges_of (self : EdgePoints.t) (blur : Z) : M ref :=
  match EdgePoints.edge_method self with
  | Member CANNY => Canny.compute (EdgePoints.img self) blur
  | Member ENTROPY =>
      Entropy.compute (EdgePoints.img self) Entropy.default_bal
  | Member SOBEL => Sobel.compute (EdgePoints.img self) 5
  | Foreign shown =>
      raise (ValueError
               ("Unexpected edge processing method: {}" ++ nl ++
                "use {} instead: {}")
               [Str shown; Str SampleMethod_name; Names SampleMethod_members])
  end.

End Dispatch.

(** The message of [get_edge_points] for a sampling selector that is no
    member of [SampleMethod]. *)
Definition unexpected_sampling (shown : string) : exn :=
  ValueError
    ("Unexpected sampling method: {}" ++ nl ++ "use {} instead: {}")
    [Str shown; Str SampleMethod_name; Names SampleMethod_members].

Module MoreExamples.

Definition black : array3 := solid 2 2 (Examples.grey 0).

(** A 1 x 1 image with one channel, and one with two. *)
Definition one_channel : array3 := [[[Fin 1]]].
Definition two_channels : array3 := [[[Fin 1; Fin 0]]].

(** A 2 x 2 array that is already grey. *)
Definition grey2d : array2 := [[Fin 0; Fin 1]; [Fin 0; Fin 0]].

(** Samplers that fail. *)
Definition failing_samplers : Sampling := {|
  poisson_disk_sample _ _ := Raised (ValueError "not enough points" []);
  threshold_sample _ _ _ := Raised (ValueError "not enough points" [])
|}.

(** A 2 x 2 white image with one pixel of another colour and the same
    luminance: [0.2126 * 7152 = 0.7152 * 2126].  The three samples of that
    pixel are binary64 numbers, [1 + 7152 * 2^-40], [1 - 2126 * 2^-40]
    and [1]. *)
Definition two_colours : array3 :=
  [[Examples.grey 1; Examples.grey 1];
   [Examples.grey 1;
    [Fin (1099511634928 # 1099511627776);
     Fin (1099511625650 # 1099511627776); Fin 1]]].



End MoreExamples.

(* ================================================================== *)
(** ** The filters of [Entropy.compute] and what is assumed of them *)

(** Some channel of the image has a cell whose value is not the value of
    its first cell: the image is not constant. *)
Definition varies (im : array3) : Prop :=
  exists i j c,
    (i < length im)%nat /\ (j < length (hd [] im))%nat /\ (c < 3)%nat /\
    ~ feq (at2 (channel c im) i j) (at2 (channel c im) 0 0).

Definition positive (x : fval) : Prop := exists q, x = Fin q /\ 0 < q.


Section EntropyMaps.
Context {lib : ImageLib}.



End EntropyMaps.


(* ================================================================== *)
(** ** Division with binary64 rounding *)

Module Binary64.

(** [floor (log2 q)] for a positive [q]. *)
Definition exponent (q : Q) : Z :=
  let e := (Z.log2 (Qnum q) - Z.log2 (QDen q))%Z in
  if Qle_bool (2 ^ e) q then e else (e - 1)%Z.

(** The nearest number with a significand of 53 bits, ties to the even
    significand; overflow and subnormal numbers are left out. *)
Definition round (q : Q) : Q :=
  match q ?= 0 with
  | Eq => 0
  | Gt =>
      let s := 2 ^ (exponent q - 52) in
      Qred (inject_Z (py_round (q / s)) * s)
  | Lt =>
      let s := 2 ^ (exponent (- q) - 52) in
      Qred (- (inject_Z (py_round (- q / s)) * s))
  end.

Definition add (x y : Q) : Q := round (x + y).
Definition div (x y : Q) : Q := round (x / y).

Definition qmax (x y : Q) : Q := if Qle_bool x y then y else x.

(** [np.mean] and [np.amax] of the cells of a map that is not empty. *)
Definition mean (w : list Q) : Q :=
  div (fold_left add w 0) (inject_Z (Z.of_nat (length w))).

Definition amax (w : list Q) : Q :=
  match w with
  | [] => 0
  | x :: l => fold_left qmax l x
  end.

(** [weight /= np.mean(weight); weight /= np.amax(weight)], each division
    rounded, and the division by the maximum alone. *)
Definition mean_then_max (w : list Q) : list Q :=
  let w1 := map (fun x => div x (mean w)) w in
  map (fun x => div x (amax w1)) w1.

Definition max_only (w : list Q) : list Q :=
  map (fun x => div x (amax w)) w.

(** The binary64 numbers written [0.1], [0.2], [0.3] and [0.7]. *)
Definition blend4 : list Q :=
  [round (1 # 10); round (2 # 10); round (3 # 10); round (7 # 10)].

End Binary64.

(* ================================================================== *)
(** * Properties *)

(** ** Floats *)

Arguments fin : simpl never.

Ltac fsimpl :=
  cbn [fdiv fmul fadd fsub fopp fmax flt is_nan scale_inf of_Z of_nat] in *.

Lemma feq_refl (x : fval) : feq x x.
Proof. destruct x; simpl; auto; reflexivity. Qed.

Lemma fin_feq (q : Q) : feq (fin q) (Fin q).
Proof. simpl. apply Qred_correct. Qed.

Lemma fin_eq (p q : Q) : p == q -> fin p = fin q.
Proof. intros E. unfold fin. f_equal. now apply Qred_complete. Qed.

Lemma fin_inv (p s : Q) : fin p = Fin s -> s == p.
Proof.
  unfold fin. intros H. assert (E : s = Qred p) by congruence.
  rewrite E. apply Qred_correct.
Qed.


Lemma Qcompare_pos (q : Q) : 0 < q -> (q ?= 0) = Gt.
Proof. intros H. now apply Qgt_alt. Qed.

Lemma fdiv_fin_pos (a b : Q) : 0 < b -> fdiv (Fin a) (Fin b) = fin (a / b).
Proof. intros H. unfold fdiv. now rewrite (Qcompare_pos b H). Qed.

Lemma Qred_lt (p q : Q) : (Qred p ?= Qred q) = (p ?= q).
Proof. now rewrite !Qred_correct. Qed.

(** A map on floats that keeps NaN apart and keeps the order. *)
Definition order_preserving (f : fval -> fval) : Prop :=
  (forall x, is_nan (f x) = is_nan x) /\
  (forall x y, flt (f x) (f y) = flt x y).

Lemma fmax_order_preserving (f : fval -> fval) (x y : fval) :
  order_preserving f -> fmax (f x) (f y) = f (fmax x y).
Proof.
  intros [Hn Hl]. unfold fmax.
  pose proof (Hn x) as Hx. pose proof (Hn y) as Hy. rewrite Hl.
  destruct x, y; simpl in Hx, Hy;
    destruct (f _) eqn:E1 in Hx; try discriminate;
    destruct (f _) eqn:E2 in Hy; try discriminate;
    rewrite ?E1, ?E2; try reflexivity;
    match goal with |- context [if ?b then _ else _] => destruct b end;
    rewrite ?E1, ?E2; reflexivity.
Qed.

Lemma fold_fmax_order_preserving (f : fval -> fval) (l : list fval) (x : fval) :
  order_preserving f ->
  fold_left fmax (map f l) (f x) = f (fold_left fmax l x).
Proof.
  intros Hf. revert x.
  induction l as [|y l IH]; intros x; simpl; [reflexivity|].
  rewrite (fmax_order_preserving f x y Hf). apply IH.
Qed.

Lemma amax_map2d (f : fval -> fval) (a : array2) (m : fval) :
  order_preserving f ->
  amax a = Returned m -> amax (map2d f a) = Returned (f m).
Proof.
  intros Hf. unfold amax, map2d. rewrite <- concat_map.
  destruct (concat a) as [|x l]; simpl; [discriminate|].
  intros E. injection E as <-.
  now rewrite fold_fmax_order_preserving.
Qed.

Lemma Qcompare_mul_pos (a b s : Q) :
  0 < s -> (a * s ?= b * s) = (a ?= b).
Proof.
  intros Hs. destruct (Qcompare_spec a b) as [E|E|E].
  - apply Qeq_alt. now rewrite E.
  - apply Qlt_alt. now apply Qmult_lt_compat_r.
  - apply Qgt_alt. now apply Qmult_lt_compat_r.
Qed.

Lemma Qcompare_div_pos (a b m : Q) :
  0 < m -> (a / m ?= b / m) = (a ?= b).
Proof.
  intros Hm. unfold Qdiv. apply Qcompare_mul_pos. now apply Qinv_lt_0_compat.
Qed.

(** Division by a positive number and multiplication by one keep the
    order. *)
Lemma div_pos_order_preserving (m : Q) :
  0 < m -> order_preserving (fun x => fdiv x (Fin m)).
Proof.
  intros Hm. pose proof (Qcompare_pos m Hm) as Em. split.
  - intros [q| | |]; fsimpl; rewrite ?Em; reflexivity.
  - intros [a| | |] [b| | |]; fsimpl; rewrite ?Em; fsimpl; try reflexivity.
    unfold fin; fsimpl. now rewrite Qred_lt, Qcompare_div_pos.
Qed.

Lemma mul_pos_order_preserving (s : Q) :
  0 < s -> order_preserving (fun x => fmul x (Fin s)).
Proof.
  intros Hs. pose proof (Qcompare_pos s Hs) as Es. split.
  - intros [q| | |]; fsimpl; unfold scale_inf; rewrite ?Es; reflexivity.
  - intros [a| | |] [b| | |]; fsimpl; unfold scale_inf; rewrite ?Es; fsimpl;
      try reflexivity.
    unfold fin; fsimpl. now rewrite Qred_lt, Qcompare_mul_pos.
Qed.



(** ** Arrays *)

Lemma upd_nth_length {A : Type} (n : nat) (v : A) (l : list A) :
  length (upd_nth n v l) = length l.
Proof.
  revert n. induction l as [|x l IH]; intros [|n]; simpl; auto.
Qed.

Lemma nth_upd_nth_same {A : Type} (n : nat) (v d : A) (l : list A) :
  (n < length l)%nat -> nth n (upd_nth n v l) d = v.
Proof.
  revert n. induction l as [|x l IH]; intros [|n] H; simpl in *;
    try lia; auto. apply IH. lia.
Qed.

Lemma nth_upd_nth_other {A : Type} (n k : nat) (v d : A) (l : list A) :
  k <> n -> nth k (upd_nth n v l) d = nth k l d.
Proof.
  revert n k. induction l as [|x l IH]; intros [|n] [|k] H; simpl;
    try reflexivity; try congruence. apply IH. congruence.
Qed.

Lemma upd_nth_out {A : Type} (n : nat) (v : A) (l : list A) :
  (length l <= n)%nat -> upd_nth n v l = l.
Proof.
  revert n. induction l as [|x l IH]; intros [|n] H; simpl in *;
    try reflexivity; try lia. f_equal. apply IH. lia.
Qed.

Lemma hd_nth_0 {A : Type} (l : list A) (d : A) : hd d l = nth 0 l d.
Proof. now destruct l. Qed.

Lemma set2_length (a : array2) (i j : nat) (v : fval) :
  length (set2 a i j v) = length a.
Proof. apply upd_nth_length. Qed.

Lemma set2_row_length (a : array2) (i j k : nat) (v : fval) :
  length (nth k (set2 a i j v) []) = length (nth k a []).
Proof.
  unfold set2. destruct (Nat.eq_dec k i) as [->|N].
  - destruct (Nat.lt_ge_cases i (length a)) as [L|L].
    + rewrite nth_upd_nth_same by assumption. apply upd_nth_length.
    + now rewrite upd_nth_out.
  - now rewrite nth_upd_nth_other.
Qed.

Lemma at2_set2_other (a : array2) (i j i' j' : nat) (v : fval) :
  (i', j') <> (i, j) -> at2 (set2 a i j v) i' j' = at2 a i' j'.
Proof.
  intros N. unfold at2, set2. destruct (Nat.eq_dec i' i) as [->|Ni].
  - destruct (Nat.lt_ge_cases i (length a)) as [L|L].
    + rewrite nth_upd_nth_same by assumption.
      apply nth_upd_nth_other. congruence.
    + now rewrite upd_nth_out.
  - now rewrite nth_upd_nth_other.
Qed.

Lemma at2_set2_same (a : array2) (i j : nat) (v : fval) :
  (i < length a)%nat -> (j < length (nth i a []))%nat ->
  at2 (set2 a i j v) i j = v.
Proof.
  intros Hi Hj. unfold at2, set2.
  rewrite nth_upd_nth_same by assumption. now apply nth_upd_nth_same.
Qed.

Lemma at2_out (a : array2) (i j : nat) :
  ~ ((i < length a)%nat /\ (j < length (nth i a []))%nat) ->
  at2 a i j = Fin 0.
Proof.
  intros N. unfold at2.
  destruct (Nat.lt_ge_cases i (length a)) as [Hi|Hi].
  - apply nth_overflow. lia.
  - rewrite (nth_overflow a [] Hi). now destruct j.
Qed.

(** Two arrays of one shape with the same cells are the same array. *)
Lemma array2_ext (a b : array2) :
  length a = length b ->
  (forall i, length (nth i a []) = length (nth i b [])) ->
  (forall i j, at2 a i j = at2 b i j) ->
  a = b.
Proof.
  intros HL HR HC. apply (nth_ext a b [] [] HL). intros i Hi.
  apply (nth_ext _ _ (Fin 0) (Fin 0) (HR i)). intros j Hj. apply HC.
Qed.

Lemma at2_map2d (f : fval -> fval) (a : array2) (i j : nat) :
  (i < length a)%nat -> (j < length (nth i a []))%nat ->
  at2 (map2d f a) i j = f (at2 a i j).
Proof.
  intros Hi Hj. unfold at2, map2d.
  rewrite (nth_indep _ [] (map f []))
    by (rewrite length_map; assumption).
  rewrite map_nth. simpl.
  rewrite (nth_indep _ (Fin 0) (f (Fin 0)))
    by (rewrite length_map; assumption).
  apply map_nth.
Qed.

Lemma map2d_length (f : fval -> fval) (a : array2) :
  length (map2d f a) = length a.
Proof. apply length_map. Qed.

Lemma map2d_row_length (f : fval -> fval) (a : array2) (i : nat) :
  length (nth i (map2d f a) []) = length (nth i a []).
Proof.
  unfold map2d. change (@nil fval) with (map f []) at 1.
  rewrite map_nth. apply length_map.
Qed.

Lemma rect_row_length (a : array2) (i : nat) :
  rect a -> (i < length a)%nat -> length (nth i a []) = height2 a.
Proof.
  intros R Hi. unfold rect in R. rewrite Forall_forall in R.
  apply R. now apply nth_In.
Qed.

Lemma in_ndindex (a : array2) (i j : nat) :
  In (i, j) (ndindex a) <-> (i < width2 a)%nat /\ (j < height2 a)%nat.
Proof.
  unfold ndindex. rewrite in_flat_map. split.
  - intros [k [Hk Hin]]. rewrite in_map_iff in Hin.
    destruct Hin as [l [E Hl]]. injection E as -> ->.
    rewrite in_seq in Hk, Hl. lia.
  - intros [Hi Hj]. exists i. split; [apply in_seq; lia|].
    apply in_map. apply in_seq. lia.
Qed.

(** ** The thresholding loop of [Canny.compute] *)

Lemma threshold_value : Canny.threshold = Fin (3 # 256).
Proof. reflexivity. Qed.

Lemma clamp_idem (v : fval) : Canny.clamp (Canny.clamp v) = Canny.clamp v.
Proof.
  unfold Canny.clamp. destruct (flt v Canny.threshold) eqn:E.
  - reflexivity.
  - now rewrite E.
Qed.

Lemma threshold_step_length (a : array2) (idx : nat * nat) :
  length (Canny.threshold_step a idx) = length a.
Proof.
  destruct idx as [i j]. unfold Canny.threshold_step.
  destruct (flt _ _); [apply set2_length | reflexivity].
Qed.

Lemma threshold_step_row_length (a : array2) (idx : nat * nat) (k : nat) :
  length (nth k (Canny.threshold_step a idx) []) = length (nth k a []).
Proof.
  destruct idx as [i j]. unfold Canny.threshold_step.
  destruct (flt _ _); [apply set2_row_length | reflexivity].
Qed.

Lemma at2_threshold_step_same (a : array2) (i j : nat) :
  at2 (Canny.threshold_step a (i, j)) i j = Canny.clamp (at2 a i j).
Proof.
  unfold Canny.threshold_step, Canny.clamp.
  destruct (flt (at2 a i j) Canny.threshold) eqn:E; [|reflexivity].
  destruct (Nat.lt_ge_cases i (length a)) as [Hi|Hi];
    [destruct (Nat.lt_ge_cases j (length (nth i a []))) as [Hj|Hj]|].
  - now apply at2_set2_same.
  - apply at2_out. rewrite set2_length, set2_row_length. lia.
  - apply at2_out. rewrite set2_length. lia.
Qed.

Lemma at2_threshold_step_other (a : array2) (idx : nat * nat) (i j : nat) :
  (i, j) <> idx -> at2 (Canny.threshold_step a idx) i j = at2 a i j.
Proof.
  destruct idx as [i0 j0]. intros N. unfold Canny.threshold_step.
  destruct (flt _ _); [now apply at2_set2_other | reflexivity].
Qed.

Lemma at2_threshold_steps_out (idxs : list (nat * nat)) (a : array2) (i j : nat) :
  ~ In (i, j) idxs -> at2 (Canny.threshold_steps idxs a) i j = at2 a i j.
Proof.
  revert a. induction idxs as [|idx rest IH]; intros a N; simpl;
    [reflexivity|].
  unfold Canny.threshold_steps in *. simpl. rewrite IH.
  - apply at2_threshold_step_other. intros E. apply N. now left.
  - intros H. apply N. now right.
Qed.

Lemma at2_threshold_steps_in (idxs : list (nat * nat)) (a : array2) (i j : nat) :
  In (i, j) idxs ->
  at2 (Canny.threshold_steps idxs a) i j = Canny.clamp (at2 a i j).
Proof.
  revert a. induction idxs as [|idx rest IH]; intros a H; [destruct H|].
  unfold Canny.threshold_steps in *. simpl.
  destruct (in_dec idx_eq_dec (i, j) rest) as [Hin|Hout].
  - rewrite (IH _ Hin). destruct (idx_eq_dec (i, j) idx) as [E|N].
    + subst idx. rewrite at2_threshold_step_same. apply clamp_idem.
    + now rewrite at2_threshold_step_other.
  - destruct H as [E|H]; [subst idx|contradiction].
    fold (Canny.threshold_steps rest (Canny.threshold_step a (i, j))).
    rewrite (at2_threshold_steps_out _ _ _ _ Hout).
    apply at2_threshold_step_same.
Qed.

Lemma threshold_steps_length (idxs : list (nat * nat)) (a : array2) :
  length (Canny.threshold_steps idxs a) = length a.
Proof.
  revert a. unfold Canny.threshold_steps.
  induction idxs as [|idx rest IH]; intros a; simpl; [reflexivity|].
  rewrite IH. apply threshold_step_length.
Qed.

Lemma threshold_steps_row_length (idxs : list (nat * nat)) (a : array2) (k : nat) :
  length (nth k (Canny.threshold_steps idxs a) []) = length (nth k a []).
Proof.
  revert a. unfold Canny.threshold_steps.
  induction idxs as [|idx rest IH]; intros a; simpl; [reflexivity|].
  rewrite IH. apply threshold_step_row_length.
Qed.

(** On a rectangular array the loop clamps every cell. *)
Lemma threshold_steps_map (a : array2) :
  rect a -> Canny.threshold_steps (ndindex a) a = map2d Canny.clamp a.
Proof.
  intros R. apply array2_ext.
  - now rewrite threshold_steps_length, map2d_length.
  - intros i. now rewrite threshold_steps_row_length, map2d_row_length.
  - intros i j.
    destruct (Nat.lt_ge_cases i (length a)) as [Hi|Hi];
      [destruct (Nat.lt_ge_cases j (length (nth i a []))) as [Hj|Hj]|].
    + rewrite at2_map2d by assumption.
      apply at2_threshold_steps_in. apply in_ndindex.
      rewrite <- (rect_row_length a i R Hi). unfold width2. lia.
    + rewrite !at2_out; [reflexivity| |].
      * rewrite map2d_length, map2d_row_length. lia.
      * rewrite threshold_steps_length, threshold_steps_row_length. lia.
    + rewrite !at2_out; [reflexivity| |].
      * rewrite map2d_length. lia.
      * rewrite threshold_steps_length. lia.
Qed.

(** ** Running the monad *)

Lemma upd_same (f : ref -> ndarray) (r : ref) (a : ndarray) :
  upd f r a r = a.
Proof. unfold upd. now rewrite Nat.eqb_refl. Qed.

Lemma upd_other (f : ref -> ndarray) (r r' : ref) (a : ndarray) :
  r' <> r -> upd f r a r' = f r'.
Proof. intros N. unfold upd. now apply Nat.eqb_neq in N as ->. Qed.

Lemma extends_refl (h : heap) : extends h h.
Proof. split; auto. Qed.

Lemma extends_trans (h1 h2 h3 : heap) :
  extends h1 h2 -> extends h2 h3 -> extends h1 h3.
Proof.
  intros [L1 C1] [L2 C2]. split; [lia|].
  intros r Hr. rewrite C2 by lia. now apply C1.
Qed.

(** The loop runs to its end, touches no object but [edge], and leaves in
    [edge] what [threshold_steps] computes. *)
Lemma threshold_loop_run (edge : ref) (idxs : list (nat * nat)) :
  forall (h : heap) (a : array2),
    cells h edge = A2 a ->
    fst (Canny.threshold_loop edge idxs h) = Returned tt /\
    next (snd (Canny.threshold_loop edge idxs h)) = next h /\
    cells (snd (Canny.threshold_loop edge idxs h)) edge
      = A2 (Canny.threshold_steps idxs a) /\
    forall r, r <> edge ->
      cells (snd (Canny.threshold_loop edge idxs h)) r = cells h r.
Proof.
  induction idxs as [|[i j] rest IH]; intros h a Ha.
  - simpl. auto.
  - simpl. unfold bind, get. rewrite Ha. simpl.
    unfold Canny.threshold_steps. simpl.
    destruct (flt (at2 a i j) Canny.threshold) eqn:E.
    + unfold put. simpl.
      match goal with |- context [Canny.threshold_loop edge rest ?h1] =>
        destruct (IH h1 (set2 a i j (Fin 0))) as (R1 & R2 & R3 & R4)
      end; [apply upd_same|].
      repeat split; try assumption.
      intros r N. rewrite (R4 r N). simpl. now apply upd_other.
    + unfold ret. simpl.
      destruct (IH h a Ha) as (R1 & R2 & R3 & R4). auto.
Qed.

(** ** Shapes *)

Lemma convolve2d_length (src ker : array2) :
  length (convolve2d src ker) = width2 src.
Proof. unfold convolve2d. now rewrite length_map, length_seq. Qed.

Lemma convolve2d_rows (src ker : array2) :
  Forall (fun row => length row = height2 src) (convolve2d src ker).
Proof.
  unfold convolve2d. apply Forall_forall. intros row Hin.
  apply in_map_iff in Hin. destruct Hin as [i [<- _]].
  now rewrite length_map, length_seq.
Qed.

Lemma rows_rect (a : array2) (h : nat) :
  Forall (fun row => length row = h) a -> rect a.
Proof.
  intros H. unfold rect, height2. destruct a as [|r a]; [constructor|].
  simpl. inversion H as [|? ? Hr Ha]; subst.
  constructor; [reflexivity|]. exact Ha.
Qed.

Lemma convolve2d_rect (src ker : array2) : rect (convolve2d src ker).
Proof. exact (rows_rect _ _ (convolve2d_rows src ker)). Qed.

(** ** Running [Canny.compute] *)

(** When [blurred] is there, [compute] allocates [edge] and [dense] after
    the objects of the heap, leaves those alone, and either lets the
    exception of [np.amax] through or returns [dense] divided by its
    maximum. *)
Lemma Canny_compute_run (img : ref) (blur : Z) (h : heap) (bl : array2) :
  Canny.blurred (cells h img) blur = Returned bl ->
  extends h (snd (Canny.compute img blur h)) /\
  match amax (Canny.dense_of bl) with
  | Returned m =>
      fst (Canny.compute img blur h) = Returned (S (next h)) /\
      cells (snd (Canny.compute img blur h)) (S (next h))
        = A2 (div2 (Canny.dense_of bl) m)
  | Raised e => fst (Canny.compute img blur h) = Raised e
  end.
Proof.
  intros Hb.
  destruct (Canny.compute img blur h) as [o hf] eqn:E. cbn [fst snd].
  unfold Canny.compute in E.
  unfold bind at 1 in E. unfold get at 1 in E.
  unfold bind at 1 in E. unfold lift at 1 in E. rewrite Hb in E.
  unfold bind at 1 in E. unfold new at 1 in E.
  unfold bind at 1 in E. unfold get at 1 in E. cbn [cells next] in E.
  rewrite upd_same in E. cbn [as2] in E.
  set (edge := convolve2d bl Canny.edge_filt) in E.
  set (h1 := {| cells := upd (cells h) (next h) (A2 edge);
                next := S (next h) |}) in E.
  destruct (threshold_loop_run (next h) (ndindex edge) h1 edge)
    as (R1 & R2 & R3 & R4); [apply upd_same|].
  unfold bind at 1 in E.
  destruct (Canny.threshold_loop (next h) (ndindex edge) h1) as [o' h2].
  cbn [fst snd] in R1, R2, R3, R4. subst o'.
  unfold bind at 1 in E. unfold get at 1 in E. rewrite R3 in E.
  cbn [as2] in E.
  rewrite (threshold_steps_map edge (convolve2d_rect _ _)) in E.
  change (convolve2d (map2d Canny.clamp edge) (ones 3 3))
    with (Canny.dense_of bl) in E.
  unfold bind at 1 in E. unfold new at 1 in E.
  unfold bind at 1 in E. unfold get at 1 in E. cbn [cells next] in E.
  rewrite upd_same in E. cbn [as2] in E. rewrite R2 in E.
  unfold h1 at 1 2 3 4 in E. cbn [next] in E.
  unfold bind at 1 in E. unfold lift at 1 in E.
  assert (E0 : forall r, (r < next h)%nat -> cells h2 r = cells h r).
  { intros r Hr. rewrite R4 by lia. unfold h1. cbn [cells].
    apply upd_other. lia. }
  destruct (amax (Canny.dense_of bl)) as [m|e].
  - unfold bind, put, ret in E. injection E as <- <-.
    split; [split|split]; simpl.
    + lia.
    + intros r Hr. rewrite !upd_other by lia. now apply E0.
    + reflexivity.
    + now rewrite upd_same.
  - injection E as <- <-. split; [split|reflexivity]; simpl.
    + lia.
    + intros r Hr. rewrite upd_other by lia. now apply E0.
Qed.

Lemma Canny_compute_raise (img : ref) (blur : Z) (h : heap) (e : exn) :
  Canny.blurred (cells h img) blur = Raised e ->
  Canny.compute img blur h = (Raised e, h).
Proof.
  intros Hb. unfold Canny.compute, bind, get, lift. now rewrite Hb.
Qed.

Lemma Canny_compute_extends (img : ref) (blur : Z) (h : heap) :
  extends h (snd (Canny.compute img blur h)).
Proof.
  destruct (Canny.blurred (cells h img) blur) as [bl|e] eqn:Hb.
  - apply (Canny_compute_run img blur h bl Hb).
  - rewrite (Canny_compute_raise img blur h e Hb). apply extends_refl.
Qed.

(** ** Running [Entropy.compute] and [Sobel.compute] *)

Section RunWithLib.
Context {lib : ImageLib}.

Lemma Entropy_compute_run (img : ref) (bal : fval) (h : heap) :
  let w := Entropy.blend (cells h img) bal in
  let w1 := div2 w (mean w) in
  extends h (snd (Entropy.compute img bal h)) /\
  match amax w1 with
  | Returned m =>
      fst (Entropy.compute img bal h) = Returned (next h) /\
      cells (snd (Entropy.compute img bal h)) (next h) = A2 (div2 w1 m)
  | Raised e => fst (Entropy.compute img bal h) = Raised e
  end.
Proof.
  intros w w1.
  destruct (Entropy.compute img bal h) as [o hf] eqn:E. cbn [fst snd].
  unfold Entropy.compute, bind, get, new, put, lift, ret in E.
  cbn [cells next] in E. rewrite !upd_same in E. cbn [as2] in E.
  fold w in E. fold w1 in E.
  destruct (amax w1) as [m|e]; injection E as <- <-.
  - split; [split|split]; simpl; try reflexivity.
    + lia.
    + intros r Hr. rewrite !upd_other by lia. reflexivity.
    + now rewrite upd_same.
  - split; [split|reflexivity]; simpl.
    + lia.
    + intros r Hr. rewrite !upd_other by lia. reflexivity.
Qed.

Lemma Sobel_compute_run (img : ref) (k_size : Z) (h : heap) (im : array3) :
  cells h img = A3 im ->
  (3 <= length (hd [] (hd [] im)))%nat ->
  k_size = 3%Z \/ k_size = 5%Z ->
  extends h (snd (Sobel.compute img k_size h)) /\
  match amax (Sobel.g_of im k_size) with
  | Returned m =>
      fst (Sobel.compute img k_size h) = Returned (next h) /\
      cells (snd (Sobel.compute img k_size h)) (next h)
        = A2 (times2 (Sobel.g_of im k_size) (fdiv (Fin 255) m))
  | Raised e => fst (Sobel.compute img k_size h) = Raised e
  end.
Proof.
  intros Him Hc Hk.
  destruct (Sobel.compute img k_size h) as [o hf] eqn:E. cbn [fst snd].
  unfold Sobel.compute in E. unfold bind at 1 in E. unfold get at 1 in E.
  rewrite Him in E.
  assert (C1 : (1 <? length (hd [] (hd [] im)))%nat = true)
    by (apply Nat.ltb_lt; lia).
  assert (C3 : (length (hd [] (hd [] im)) <? 3)%nat = false)
    by (apply Nat.ltb_ge; lia).
  rewrite C1, C3 in E.
  assert (K : ((k_size =? 3)%Z || (k_size =? 5)%Z) = true)
    by (destruct Hk; subst; reflexivity).
  rewrite K in E. unfold Sobel.g_of.
  destruct (k_size =? 3)%Z;
    unfold bind, get, new, put, lift, ret, Sobel.convolve2d_checked in E;
    cbn [cells next] in E; rewrite !upd_same in E; cbn [as2] in E;
    match goal with |- context [amax ?g] => destruct (amax g) as [m|e] end;
    injection E as <- <-;
    repeat split; simpl; try reflexivity; try lia;
    try (intros r Hr; rewrite !upd_other by lia; reflexivity);
    try (now rewrite upd_same).
Qed.

Lemma Sobel_compute_extends (img : ref) (k_size : Z) (h : heap) :
  extends h (snd (Sobel.compute img k_size h)).
Proof.
  unfold Sobel.compute. unfold bind at 1. unfold get at 1.
  destruct (cells h img) as [g|im]; [apply extends_refl|].
  unfold bind at 1.
  destruct (1 <? length (hd [] (hd [] im)))%nat;
    [destruct (length (hd [] (hd [] im)) <? 3)%nat|];
    unfold raise, ret; try apply extends_refl;
    (unfold bind at 1;
     destruct ((k_size =? 3)%Z || (k_size =? 5)%Z);
     unfold raise, ret; [|apply extends_refl];
     destruct (k_size =? 3)%Z;
     unfold bind, get, new, put, lift, ret, Sobel.convolve2d_checked;
     try apply extends_refl;
     cbn [cells next]; rewrite ?upd_same; cbn [as2];
     match goal with |- context [amax ?g] => destruct (amax g) as [m|e] end;
     (split; simpl; [lia|];
      intros r Hr; rewrite !upd_other by lia; reflexivity)).
Qed.

End RunWithLib.

(** ** Convolution *)

Lemma symm_lt (n : nat) (i : Z) : (0 < n)%nat -> (symm n i < n)%nat.
Proof.
  intros Hn. unfold symm.
  pose proof (Z.mod_pos_bound i (2 * Z.of_nat n)) as B.
  destruct (Z.ltb_spec (i mod (2 * Z.of_nat n)) (Z.of_nat n)); lia.
Qed.

Lemma symm_id (n i : nat) : (i < n)%nat -> symm n (Z.of_nat i) = i.
Proof.
  intros Hi. unfold symm.
  rewrite Z.mod_small by lia.
  destruct (Z.ltb_spec (Z.of_nat i) (Z.of_nat n)); lia.
Qed.

Lemma nth_map_seq {A : Type} (f : nat -> A) (n i : nat) (d : A) :
  (i < n)%nat -> nth i (map f (seq 0 n)) d = f i.
Proof.
  intros Hi. rewrite (nth_indep _ d (f 0%nat))
    by (rewrite length_map, length_seq; assumption).
  rewrite map_nth. now rewrite seq_nth.
Qed.

Lemma at2_convolve2d (src ker : array2) (i j : nat) :
  (i < width2 src)%nat -> (j < height2 src)%nat ->
  at2 (convolve2d src ker) i j = conv_cell src ker i j.
Proof.
  intros Hi Hj. unfold at2, convolve2d.
  rewrite nth_map_seq by assumption. now apply nth_map_seq.
Qed.

Lemma full_length (w h : nat) (v : fval) : length (full w h v) = w.
Proof. apply repeat_length. Qed.

Lemma full_height (w h : nat) (v : fval) :
  (0 < w)%nat -> height2 (full w h v) = h.
Proof.
  intros Hw. unfold height2, full. destruct w; [lia|]. simpl.
  apply repeat_length.
Qed.

Lemma at2_full (w h : nat) (v : fval) (i j : nat) :
  (i < w)%nat -> (j < h)%nat -> at2 (full w h v) i j = v.
Proof.
  intros Hi Hj. unfold at2, full.
  rewrite nth_repeat_lt by assumption. now apply nth_repeat_lt.
Qed.

Lemma map2d_full (f : fval -> fval) (w h : nat) (v : fval) :
  map2d f (full w h v) = full w h (f v).
Proof. unfold map2d, full. now rewrite !map_repeat. Qed.

Lemma map_seq_const {A : Type} (f : nat -> A) (c : A) (n : nat) :
  (forall i, (i < n)%nat -> f i = c) -> map f (seq 0 n) = repeat c n.
Proof.
  intros H. transitivity (map (fun _ : nat => c) (seq 0 n)).
  - apply map_ext_in. intros i Hi. apply H. apply in_seq in Hi. lia.
  - now rewrite map_const, length_seq.
Qed.

(** Convolving an array that holds [v] everywhere: the reflected border
    holds [v] too, so every output cell sees the same samples. *)
Lemma convolve2d_full (w h : nat) (v : fval) (ker : array2) :
  (0 < w)%nat -> (0 < h)%nat ->
  convolve2d (full w h v) ker = full w h (conv_const ker v).
Proof.
  intros Hw Hh. unfold convolve2d, width2.
  rewrite full_length, (full_height w h v Hw).
  unfold full at 2. apply map_seq_const. intros i Hi.
  apply map_seq_const. intros j Hj.
  unfold conv_cell, conv_const, width2.
  rewrite full_length, (full_height w h v Hw).
  f_equal. apply flat_map_ext. intros a. apply map_ext. intros b.
  f_equal. apply at2_full; now apply symm_lt.
Qed.

Lemma fmax_idem (v : fval) : fmax v v = v.
Proof.
  destruct v as [q| | |]; try reflexivity.
  unfold fmax, flt.
  assert (E : (q ?= q) = Eq) by (apply Qeq_alt; reflexivity).
  now rewrite E.
Qed.

Lemma fold_fmax_all (v : fval) (l : list fval) :
  Forall (eq v) l -> fold_left fmax l v = v.
Proof.
  induction 1 as [|x l <- _ IH]; simpl; [reflexivity|].
  now rewrite fmax_idem.
Qed.

Lemma concat_full (w h : nat) (v : fval) :
  concat (full w h v) = repeat v (w * h).
Proof.
  unfold full. induction w as [|w IH]; simpl; [reflexivity|].
  now rewrite IH, repeat_app.
Qed.

Lemma amax_full (w h : nat) (v : fval) :
  (0 < w)%nat -> (0 < h)%nat -> amax (full w h v) = Returned v.
Proof.
  intros Hw Hh. unfold amax. rewrite concat_full.
  destruct (w * h)%nat as [|n] eqn:E; [nia|]. simpl. f_equal.
  apply fold_fmax_all. apply Forall_forall. intros x Hx.
  now apply repeat_spec in Hx.
Qed.

(** ** A solid-colour image through [Canny.compute] *)

Lemma fsum_finite (l : list fval) : Forall finite l -> finite (fsum l).
Proof.
  induction 1 as [|x l [q ->] _ [s IH]].
  - now exists 0.
  - change (fsum (Fin q :: l)) with (fadd (Fin q) (fsum l)).
    rewrite IH. now eexists.
Qed.

Lemma at2_Forall (P : fval -> Prop) (a : array2) (i j : nat) :
  P (Fin 0) -> Forall (Forall P) a -> P (at2 a i j).
Proof.
  intros P0 H. unfold at2.
  destruct (Nat.lt_ge_cases i (length a)) as [Hi|Hi].
  - rewrite Forall_forall in H. specialize (H _ (nth_In a [] Hi)).
    destruct (Nat.lt_ge_cases j (length (nth i a []))) as [Hj|Hj].
    + rewrite Forall_forall in H. apply H. now apply nth_In.
    + now rewrite nth_overflow by assumption.
  - rewrite (nth_overflow a [] Hi). now destruct j.
Qed.

Lemma at2_finite (a : array2) (i j : nat) :
  Forall (Forall finite) a -> finite (at2 a i j).
Proof. apply at2_Forall. now exists 0. Qed.

Lemma conv_const_finite (ker : array2) (q : Q) :
  Forall (Forall finite) ker -> finite (conv_const ker (Fin q)).
Proof.
  intros H. unfold conv_const. apply fsum_finite.
  apply Forall_forall. intros x Hx.
  apply in_flat_map in Hx. destruct Hx as [a [_ Hx]].
  apply in_map_iff in Hx. destruct Hx as [b [<- _]].
  destruct (at2_finite ker a b H) as [c ->]. now eexists.
Qed.

Lemma full_finite (w h : nat) (q : Q) : Forall (Forall finite) (full w h (Fin q)).
Proof.
  apply Forall_forall. intros row Hr. apply repeat_spec in Hr. subst row.
  apply Forall_forall. intros x Hx. apply repeat_spec in Hx. subst x.
  now exists q.
Qed.

Lemma blur_filt_finite (blur : Z) :
  (0 <= blur)%Z ->
  exists ker, Canny.blur_filt blur = Returned ker /\ Forall (Forall finite) ker.
Proof.
  intros Hb. unfold Canny.blur_filt, np_ones.
  destruct (Z.ltb_spec (2 * blur + 1) 0) as [L|L]; [lia|].
  eexists. split; [reflexivity|].
  unfold div2, ones. rewrite map2d_full.
  assert (P : 0 < inject_Z ((2 * blur + 1) ^ 2)).
  { change 0 with (inject_Z 0). rewrite <- Zlt_Qlt. nia. }
  unfold of_Z. rewrite (fdiv_fin_pos _ _ P). apply full_finite.
Qed.

(** The Laplacian kernel sums to zero. *)
Lemma laplacian_of_constant (s : Q) :
  exists e, conv_const Canny.edge_filt (Fin s) = Fin e /\ e == 0.
Proof.
  cbv [conv_const Canny.edge_filt width2 height2 length hd seq flat_map map
       app at2 nth fsum fold_right fmul fadd fin].
  eexists. split; [reflexivity|].
  repeat rewrite Qred_correct. ring.
Qed.

Lemma clamp_zero (e : Q) : e == 0 -> Canny.clamp (Fin e) = Fin 0.
Proof.
  intros E. unfold Canny.clamp. rewrite threshold_value. unfold flt.
  assert (L : (e ?= 3 # 256) = Lt) by (apply Qlt_alt; rewrite E; reflexivity).
  now rewrite L.
Qed.

Lemma dense_of_full (w h : nat) (s : Q) :
  (0 < w)%nat -> (0 < h)%nat ->
  Canny.dense_of (full w h (Fin s)) = full w h (Fin 0).
Proof.
  intros Hw Hh. unfold Canny.dense_of.
  rewrite (convolve2d_full w h _ _ Hw Hh).
  destruct (laplacian_of_constant s) as [e [-> E]].
  rewrite map2d_full, (clamp_zero e E).
  now rewrite (convolve2d_full w h _ _ Hw Hh).
Qed.

Lemma blurred_solid (w h : nat) (r g b : Q) (blur : Z) :
  (0 < w)%nat -> (0 < h)%nat -> (0 <= blur)%Z ->
  exists s, Canny.blurred (A3 (solid w h [Fin r; Fin g; Fin b])) blur
            = Returned (full w h (Fin s)).
Proof.
  intros Hw Hh Hb. unfold Canny.blurred.
  destruct (blur_filt_finite blur Hb) as [ker [-> F]].
  unfold rgb2gray, solid. rewrite !map_repeat.
  change (repeat (repeat ?v h) w) with (full w h v).
  assert (L : finite (luma [Fin r; Fin g; Fin b])) by (now eexists).
  destruct L as [l ->].
  rewrite (convolve2d_full w h _ _ Hw Hh).
  destruct (conv_const_finite ker l F) as [s ->]. now exists s.
Qed.

(** ** Mean and maximum *)

Lemma fsum_fin_inv (l : list fval) (s : Q) :
  fsum l = Fin s -> Forall finite l.
Proof.
  revert s. induction l as [|x l IH]; intros s H; [constructor|].
  change (fsum (x :: l)) with (fadd x (fsum l)) in H.
  destruct x as [a| | |], (fsum l) as [b| | |] eqn:E; try discriminate.
  constructor; [now exists a | now apply (IH b)].
Qed.

Lemma fold_fmax_finite (l : list fval) :
  forall x, Forall finite (x :: l) ->
    exists M, fold_left fmax l x = Fin M /\
              forall q, In (Fin q) (x :: l) -> q <= M.
Proof.
  induction l as [|y l IH]; intros x H.
  - inversion H as [|? ? [a ->] _]; subst. exists a. split; [reflexivity|].
    intros q [E|[]]. injection E as ->. lra.
  - inversion H as [|? ? [a ->] H']; subst.
    inversion H' as [|? ? [b ->] H'']; subst.
    cbn [fold_left].
    assert (C : exists c, fmax (Fin a) (Fin b) = Fin c /\ a <= c /\ b <= c).
    { unfold fmax, flt. destruct (Qcompare_spec a b) as [E|E|E].
      - exists a. repeat split; lra.
      - exists b. repeat split; lra.
      - exists a. repeat split; lra. }
    destruct C as (c & -> & Ha & Hb).
    destruct (IH (Fin c)) as (M & E & HM).
    { constructor; [now exists c | assumption]. }
    exists M. split; [assumption|].
    assert (Hc : c <= M) by (apply HM; now left).
    intros q [Eq|[Eq|Hin]].
    + injection Eq as ->. lra.
    + injection Eq as ->. lra.
    + apply HM. now right.
Qed.

Lemma fsum_le_max (l : list fval) (M : Q) :
  (forall q, In (Fin q) l -> q <= M) ->
  forall s, fsum l = Fin s -> s <= inject_Z (Z.of_nat (length l)) * M.
Proof.
  induction l as [|x l IH]; intros HM s H.
  - injection H as <-. change (inject_Z (Z.of_nat (length []))) with 0. lra.
  - change (fsum (x :: l)) with (fadd x (fsum l)) in H.
    destruct x as [a| | |], (fsum l) as [b| | |] eqn:E; try discriminate.
    cbn [fadd] in H. apply fin_inv in H. rewrite H.
    assert (Ha : a <= M) by (apply HM; now left).
    assert (Hb : b <= inject_Z (Z.of_nat (length l)) * M).
    { apply IH; [|reflexivity]. intros q Hq. apply HM. now right. }
    cbn [length]. rewrite Nat2Z.inj_succ. unfold Z.succ.
    rewrite inject_Z_plus. change (inject_Z 1) with 1.
    rewrite Qmult_plus_distr_l. lra.
Qed.

(** A map of positive mean is finite, not empty, and has a positive
    maximum. *)
Lemma mean_pos_amax_pos (w : array2) (mu : Q) :
  mean w = Fin mu -> 0 < mu ->
  exists M, amax w = Returned (Fin M) /\ 0 < M /\ Forall finite (concat w).
Proof.
  unfold mean, amax. intros H Hmu.
  destruct (fsum (concat w)) as [s| | |] eqn:Es; unfold of_nat, of_Z in H;
    fsimpl;
    try (destruct (inject_Z (Z.of_nat (length (concat w))) ?= 0);
         discriminate).
  pose proof (fsum_fin_inv _ _ Es) as F.
  set (n := inject_Z (Z.of_nat (length (concat w)))) in *.
  assert (Hn : 0 <= n).
  { unfold n. change 0 with (inject_Z 0). rewrite <- Zle_Qle. lia. }
  destruct (Qcompare_spec n 0) as [E|E|E].
  - destruct (s ?= 0); discriminate.
  - lra.
  - apply fin_inv in H.
    assert (Hs : 0 < s).
    { rewrite H in Hmu.
      apply (Qmult_lt_compat_r _ _ n) in Hmu; [|assumption].
      unfold Qdiv in Hmu. rewrite <- Qmult_assoc, (Qmult_comm (/ n)) in Hmu.
      rewrite Qmult_inv_r in Hmu by lra. lra. }
    destruct (concat w) as [|x l] eqn:Ec.
    + exfalso. unfold n in E. revert E. apply Qlt_irrefl.
    + destruct (fold_fmax_finite l x F) as (M & EM & HM).
      exists M. rewrite EM. split; [reflexivity|]. split; [|assumption].
      pose proof (fsum_le_max (x :: l) M HM s Es) as Hle. fold n in Hle.
      destruct (Qlt_le_dec 0 M) as [P|P]; [assumption|exfalso].
      assert (n * M <= 0) by nra. lra.
Qed.

(** ** An edge response that reaches the threshold *)

Lemma fmul_finite (x y : fval) : finite x -> finite y -> finite (fmul x y).
Proof. intros [a ->] [b ->]. now eexists. Qed.

Lemma fadd_finite (x y : fval) : finite x -> finite y -> finite (fadd x y).
Proof. intros [a ->] [b ->]. now eexists. Qed.

Lemma conv_cell_finite (src ker : array2) (i j : nat) :
  Forall (Forall finite) src -> Forall (Forall finite) ker ->
  finite (conv_cell src ker i j).
Proof.
  intros Hs Hk. unfold conv_cell. apply fsum_finite.
  apply Forall_forall. intros x Hx.
  apply in_flat_map in Hx. destruct Hx as [a [_ Hx]].
  apply in_map_iff in Hx. destruct Hx as [b [<- _]].
  apply fmul_finite; now apply at2_finite.
Qed.

Lemma convolve2d_finite (src ker : array2) :
  Forall (Forall finite) src -> Forall (Forall finite) ker ->
  Forall (Forall finite) (convolve2d src ker).
Proof.
  intros Hs Hk. unfold convolve2d.
  apply Forall_forall. intros row Hrow.
  apply in_map_iff in Hrow. destruct Hrow as [i [<- _]].
  apply Forall_forall. intros x Hx.
  apply in_map_iff in Hx. destruct Hx as [j [<- _]].
  now apply conv_cell_finite.
Qed.

Lemma luma_finite (px : list fval) : Forall finite px -> finite (luma px).
Proof.
  intros H. unfold luma.
  assert (N : forall k, finite (nth k px (Fin 0))).
  { intros k. destruct (Nat.lt_ge_cases k (length px)) as [L|L].
    - rewrite Forall_forall in H. apply H. now apply nth_In.
    - rewrite nth_overflow by assumption. now exists 0. }
  repeat first [apply fadd_finite | apply fmul_finite | apply N
               | now eexists].
Qed.

Lemma rgb2gray_finite (im : array3) :
  rgb_image im -> Forall (Forall finite) (rgb2gray (A3 im)).
Proof.
  intros (_ & _ & H). unfold rgb2gray.
  apply Forall_forall. intros row Hrow.
  apply in_map_iff in Hrow. destruct Hrow as [col [<- Hcol]].
  rewrite Forall_forall in H. destruct (H col Hcol) as [_ Hpx].
  apply Forall_forall. intros x Hx.
  apply in_map_iff in Hx. destruct Hx as [px [<- Hin]].
  rewrite Forall_forall in Hpx. destruct (Hpx px Hin) as [_ F].
  now apply luma_finite.
Qed.

Lemma edge_filt_finite : Forall (Forall finite) Canny.edge_filt.
Proof. repeat constructor; now eexists. Qed.

(** The raw edge map of a well-formed image is finite. *)
Lemma edge_finite (im : array3) (blur : Z) (bl : array2) :
  rgb_image im -> Canny.blurred (A3 im) blur = Returned bl ->
  Forall (Forall finite) (convolve2d bl Canny.edge_filt).
Proof.
  intros Him Hb. unfold Canny.blurred in Hb.
  destruct (Canny.blur_filt blur) as [ker|e] eqn:Ek; [|discriminate].
  injection Hb as <-.
  apply convolve2d_finite; [|apply edge_filt_finite].
  apply convolve2d_finite; [now apply rgb2gray_finite|].
  unfold Canny.blur_filt in Ek.
  destruct (np_ones (2 * blur + 1)) as [o|e] eqn:Eo; [|discriminate].
  injection Ek as <-. unfold np_ones in Eo.
  destruct (Z.ltb_spec (2 * blur + 1) 0) as [L|L]; [discriminate|].
  injection Eo as <-.
  unfold div2, ones. rewrite map2d_full.
  assert (P : 0 < inject_Z ((2 * blur + 1) ^ 2)).
  { change 0 with (inject_Z 0). rewrite <- Zlt_Qlt. nia. }
  unfold of_Z. rewrite (fdiv_fin_pos _ _ P). apply full_finite.
Qed.

Lemma clamp_nonneg (x : fval) : finite x -> nonneg (Canny.clamp x).
Proof.
  intros [q ->]. unfold Canny.clamp. rewrite threshold_value. unfold flt.
  destruct (Qcompare_spec q (3 # 256)) as [E|E|E].
  - exists q. split; [reflexivity|]. rewrite E. discriminate.
  - exists 0. split; [reflexivity|]. lra.
  - exists q. split; [reflexivity|].
    apply Qlt_le_weak. apply Qlt_trans with (3 # 256); [reflexivity|exact E].
Qed.

Lemma clamp_above (q : Q) : 3 # 256 <= q -> Canny.clamp (Fin q) = Fin q.
Proof.
  intros H. unfold Canny.clamp. rewrite threshold_value. unfold flt.
  destruct (Qcompare_spec q (3 # 256)) as [E|E|E]; try reflexivity.
  exfalso. lra.
Qed.

Lemma fsum_nonneg_ge (l : list fval) (q : Q) :
  Forall nonneg l -> In (Fin q) l ->
  exists s, fsum l = Fin s /\ q <= s.
Proof.
  induction 1 as [|x l (a & -> & Ha) Hl IH]; intros Hin; [destruct Hin|].
  assert (T : exists t, fsum l = Fin t /\ 0 <= t).
  { clear IH Hin. induction Hl as [|y l (b & -> & Hb) _ (t & Et & Ht)].
    - exists 0. split; [reflexivity|]. lra.
    - change (fsum (Fin b :: l)) with (fadd (Fin b) (fsum l)).
      rewrite Et. eexists. split; [reflexivity|].
      rewrite Qred_correct. lra. }
  change (fsum (Fin a :: l)) with (fadd (Fin a) (fsum l)).
  destruct Hin as [E|Hin].
  - destruct T as (t & -> & Ht). eexists. split; [reflexivity|].
    rewrite Qred_correct. assert (q = a) by congruence. subst q. lra.
  - destruct (IH Hin) as (s & -> & Hs). eexists. split; [reflexivity|].
    rewrite Qred_correct. lra.
Qed.

(** Densifying keeps, in each cell, at least the thresholded response of
    that cell. *)
Lemma dense_cell_ge (th : array2) (i j : nat) (q : Q) :
  Forall (Forall nonneg) th ->
  (i < width2 th)%nat -> (j < height2 th)%nat ->
  at2 th i j = Fin q ->
  exists s, conv_cell th (ones 3 3) i j = Fin s /\ q <= s.
Proof.
  intros Hth Hi Hj Hq. unfold conv_cell.
  assert (N0 : nonneg (Fin 0)) by (exists 0; split; [reflexivity|lra]).
  destruct (fsum_nonneg_ge
    (flat_map
       (fun a =>
          map (fun b =>
                 fmul (at2 (ones 3 3) a b)
                   (at2 th
                      (symm (width2 th)
                         (Z.of_nat i + (Z.of_nat (width2 (ones 3 3)) - 1) / 2
                          - Z.of_nat a))
                      (symm (height2 th)
                         (Z.of_nat j + (Z.of_nat (height2 (ones 3 3)) - 1) / 2
                          - Z.of_nat b))))
              (seq 0 (height2 (ones 3 3))))
       (seq 0 (width2 (ones 3 3)))) (Qred (1 * q))) as (s & Es & Hs).
  - apply Forall_forall. intros x Hx.
    apply in_flat_map in Hx. destruct Hx as [a [Ha Hx]].
    apply in_map_iff in Hx. destruct Hx as [b [<- Hb]].
    apply in_seq in Ha. apply in_seq in Hb.
    change (width2 (ones 3 3)) with 3%nat in *.
    change (height2 (ones 3 3)) with 3%nat in *.
    unfold ones. rewrite at2_full by lia.
    destruct (at2_Forall nonneg th
                (symm (width2 th) (Z.of_nat i + (Z.of_nat 3 - 1) / 2 - Z.of_nat a))
                (symm (height2 th) (Z.of_nat j + (Z.of_nat 3 - 1) / 2 - Z.of_nat b))
                N0 Hth) as (c & -> & Hc).
    eexists. split; [reflexivity|]. rewrite Qred_correct. lra.
  - change (width2 (ones 3 3)) with 3%nat.
    change (height2 (ones 3 3)) with 3%nat.
    apply in_flat_map. exists 1%nat. split; [apply in_seq; lia|].
    apply in_map_iff. exists 1%nat. split; [|apply in_seq; lia].
    change ((Z.of_nat 3 - 1) / 2)%Z with 1%Z. change (Z.of_nat 1) with 1%Z.
    rewrite !Z.add_simpl_r, !symm_id by assumption.
    rewrite Hq. reflexivity.
  - exists s. split; [exact Es|]. rewrite Qred_correct in Hs. lra.
Qed.

(** If the raw edge response of some pixel reaches the threshold, the map
    that is divided by its maximum has a positive maximum. *)
Lemma dense_max_positive (bl : array2) (i j : nat) (q : Q) :
  Forall (Forall finite) (convolve2d bl Canny.edge_filt) ->
  (i < width2 bl)%nat -> (j < height2 bl)%nat ->
  at2 (convolve2d bl Canny.edge_filt) i j = Fin q -> 3 # 256 <= q ->
  exists m, amax (Canny.dense_of bl) = Returned (Fin m) /\ 0 < m.
Proof.
  intros F Hi Hj Hq Hthr.
  set (edge := convolve2d bl Canny.edge_filt) in *.
  set (th := map2d Canny.clamp edge).
  assert (Wt : width2 th = width2 bl).
  { unfold th, edge, width2. now rewrite map2d_length, convolve2d_length. }
  assert (Re : length (nth i edge []) = height2 bl).
  { unfold edge, convolve2d. rewrite nth_map_seq by assumption.
    now rewrite length_map, length_seq. }
  assert (Ht : height2 th = height2 bl).
  { unfold height2 at 1. rewrite (hd_nth_0 th []).
    unfold th. rewrite map2d_row_length.
    unfold edge, convolve2d. rewrite nth_map_seq by lia.
    now rewrite length_map, length_seq. }
  assert (Nth : Forall (Forall nonneg) th).
  { unfold th, map2d. apply Forall_forall. intros row Hrow.
    apply in_map_iff in Hrow. destruct Hrow as [r0 [<- Hr0]].
    apply Forall_forall. intros x Hx.
    apply in_map_iff in Hx. destruct Hx as [x0 [<- Hx0]].
    apply clamp_nonneg. rewrite Forall_forall in F.
    specialize (F r0 Hr0). rewrite Forall_forall in F. now apply F. }
  assert (Cq : at2 th i j = Fin q).
  { unfold th. rewrite at2_map2d.
    - rewrite Hq. now apply clamp_above.
    - unfold edge. rewrite convolve2d_length. exact Hi.
    - rewrite Re. exact Hj. }
  destruct (dense_cell_ge th i j q Nth) as (s & Es & Hs);
    [rewrite Wt; exact Hi | rewrite Ht; exact Hj | exact Cq |].
  assert (Fd : Forall (Forall finite) (Canny.dense_of bl)).
  { unfold Canny.dense_of, ones. fold edge. fold th.
    apply (convolve2d_finite th (full 3 3 (Fin 1))); [|apply full_finite].
    apply Forall_forall. intros row Hrow.
    rewrite Forall_forall in Nth. specialize (Nth row Hrow).
    apply Forall_forall. intros x Hx.
    rewrite Forall_forall in Nth. destruct (Nth x Hx) as (c & -> & _).
    now exists c. }
  assert (Hin : In (Fin s) (concat (Canny.dense_of bl))).
  { apply in_concat. exists (nth i (Canny.dense_of bl) []).
    assert (Li : (i < length (Canny.dense_of bl))%nat).
    { unfold Canny.dense_of. rewrite convolve2d_length.
      fold edge. fold th. rewrite Wt. exact Hi. }
    split; [now apply nth_In|].
    assert (Lj : (j < length (nth i (Canny.dense_of bl) []))%nat).
    { unfold Canny.dense_of. fold edge. fold th. unfold convolve2d.
      rewrite nth_map_seq by (rewrite Wt; exact Hi).
      rewrite length_map, length_seq, Ht. exact Hj. }
    rewrite <- Es.
    rewrite <- (at2_convolve2d th (ones 3 3) i j)
      by (rewrite ?Wt, ?Ht; assumption).
    unfold at2. apply nth_In. exact Lj. }
  unfold amax. apply Forall_concat in Fd.
  destruct (concat (Canny.dense_of bl)) as [|x l] eqn:Ec; [destruct Hin|].
  destruct (fold_fmax_finite l x Fd) as (M & EM & HM).
  exists M. rewrite EM. split; [reflexivity|].
  specialize (HM s Hin). lra.
Qed.

(* ================================================================== *)
(** * The claims *)

Lemma Forall2_nth_intro {A : Type} (R : A -> A -> Prop) (d : A)
    (a b : list A) :
  length a = length b ->
  (forall i, (i < length a)%nat -> R (nth i a d) (nth i b d)) ->
  Forall2 R a b.
Proof.
  revert b. induction a as [|x a IH]; intros [|y b] HL H;
    try discriminate; constructor.
  - apply (H 0%nat). simpl. lia.
  - apply IH; [simpl in HL; lia|].
    intros i Hi. apply (H (S i)). simpl. lia.
Qed.

Lemma identity_tap (x : fval) : feq (fadd (fmul (Fin 1) x) (Fin 0)) x.
Proof.
  destruct x as [q| | |]; try exact I.
  repeat (unfold fin; cbn [fmul fadd feq]). rewrite !Qred_correct. ring.
Qed.

(** C7: with blur radius 0 the averaging kernel is the 1 x 1 identity, and
    the blurred image that [Canny.compute] passes to the Laplacian equals
    the grayscale image, cell by cell. *)
Theorem C7_blur_zero_keeps_gray (a : ndarray) :
  rect (rgb2gray a) ->
  exists bl, Canny.blurred a 0 = Returned bl /\ array2_eq bl (rgb2gray a).
Proof.
  intros R. unfold Canny.blurred.
  change (Canny.blur_filt 0) with (@Returned array2 [[Fin 1]]).
  set (g := rgb2gray a) in *.
  eexists. split; [reflexivity|].
  apply (Forall2_nth_intro _ []); [apply convolve2d_length|].
  intros i Hi. rewrite convolve2d_length in Hi.
  assert (HR : length (nth i g []) = height2 g) by now apply rect_row_length.
  assert (HC : length (nth i (convolve2d g [[Fin 1]]) []) = height2 g).
  { unfold convolve2d. rewrite nth_map_seq by assumption.
    now rewrite length_map, length_seq. }
  apply (Forall2_nth_intro _ (Fin 0)); [congruence|].
  intros j Hj. rewrite HC in Hj.
  change (feq (at2 (convolve2d g [[Fin 1]]) i j) (at2 g i j)).
  rewrite at2_convolve2d by assumption.
  unfold conv_cell.
  cbv [width2 height2 length hd seq flat_map map app fsum fold_right].
  change (at2 [[Fin 1]] 0 0) with (Fin 1).
  change ((Z.of_nat 1 - 1) / 2)%Z with 0%Z.
  change (Z.of_nat 0) with 0%Z. rewrite !Z.add_0_r, !Z.sub_0_r.
  fold (width2 g). fold (height2 g).
  rewrite !symm_id by assumption.
  apply identity_tap.
Qed.

Lemma C7_blur_zero_keeps_gray_witness :
  exists bl, Canny.blurred (A3 Examples.one_white) 0 = Returned bl /\
             array2_eq bl (rgb2gray (A3 Examples.one_white)).
Proof.
  apply C7_blur_zero_keeps_gray.
  unfold rect. simpl. repeat constructor.
Defined.

(** C5: the thresholding loop of [Canny.compute] writes 0 into every cell
    of the raw edge map whose value is below 3/256 and leaves every cell
    whose value is 3/256 or more as it is. *)
Theorem C5_threshold_clamps_below (hp : heap) (edge : ref) (a : array2)
    (i j : nat) (q : Q) :
  cells hp edge = A2 a -> rect a ->
  (i < width2 a)%nat -> (j < height2 a)%nat ->
  at2 a i j = Fin q ->
  let hp' := snd (Canny.threshold_loop edge (ndindex a) hp) in
  (q < 3 # 256 -> at2 (as2 (cells hp' edge)) i j = Fin 0) /\
  (3 # 256 <= q -> at2 (as2 (cells hp' edge)) i j = Fin q).
Proof.
  intros Ha R Hi Hj Hq hp'.
  destruct (threshold_loop_run edge (ndindex a) hp a Ha) as (_ & _ & E & _).
  fold hp' in E. rewrite E. cbn [as2].
  rewrite (threshold_steps_map a R).
  rewrite at2_map2d;
    [|exact Hi|rewrite (rect_row_length a i R Hi); exact Hj].
  rewrite Hq. unfold Canny.clamp. rewrite threshold_value. unfold flt.
  destruct (Qcompare_spec q (3 # 256)) as [C|C|C]; split; intros H;
    try reflexivity; exfalso; lra.
Qed.

Lemma C5_threshold_clamps_below_witness :
  let a := [[Fin (1 # 100); Fin (1 # 2)]] in
  let hp' := snd (Canny.threshold_loop 0%nat (ndindex a)
                    (Examples.heap_of (A2 a))) in
  (1 # 100 < 3 # 256 /\ at2 (as2 (cells hp' 0%nat)) 0 0 = Fin 0) /\
  (3 # 256 <= 1 # 2 /\ at2 (as2 (cells hp' 0%nat)) 0 1 = Fin (1 # 2)).
Proof.
  intros a hp'.
  assert (R : rect a) by (repeat constructor).
  assert (Hw : (0 < width2 a)%nat) by (unfold width2; simpl; lia).
  assert (H0 : (0 < height2 a)%nat) by (unfold height2; simpl; lia).
  assert (H1 : (1 < height2 a)%nat) by (unfold height2; simpl; lia).
  split; split.
  - reflexivity.
  - apply (C5_threshold_clamps_below (Examples.heap_of (A2 a)) 0%nat a
             0 0 (1 # 100) eq_refl R Hw H0 eq_refl).
    reflexivity.
  - discriminate.
  - apply (C5_threshold_clamps_below (Examples.heap_of (A2 a)) 0%nat a
             0 1 (1 # 2) eq_refl R Hw H1 eq_refl).
    discriminate.
Defined.

(** C2, as the code has it: for a solid-colour image the map is zero
    everywhere before it is normalised, [Canny.compute] raises nothing,
    divides by the zero maximum and returns a map that is NaN everywhere. *)
Theorem C2_solid_image_returns_nan_map (w h : nat) (r g b : Q) (blur : Z)
    (hp : heap) (img : ref) :
  (0 < w)%nat -> (0 < h)%nat -> (0 <= blur)%Z ->
  cells hp img = A3 (solid w h [Fin r; Fin g; Fin b]) ->
  exists bl,
    Canny.blurred (cells hp img) blur = Returned bl /\
    Canny.dense_of bl = full w h (Fin 0) /\
    fst (Canny.compute img blur hp) = Returned (S (next hp)) /\
    cells (snd (Canny.compute img blur hp)) (S (next hp))
      = A2 (full w h NaN).
Proof.
  intros Hw Hh Hb Him. rewrite Him.
  destruct (blurred_solid w h r g b blur Hw Hh Hb) as [s Hs].
  exists (full w h (Fin s)). split; [exact Hs|].
  pose proof (dense_of_full w h s Hw Hh) as Hd.
  split; [exact Hd|].
  rewrite <- Him in Hs.
  destruct (Canny_compute_run img blur hp _ Hs) as [_ Hrun].
  rewrite Hd, (amax_full w h (Fin 0) Hw Hh) in Hrun.
  destruct Hrun as [R1 R2]. split; [exact R1|].
  rewrite R2. unfold div2. now rewrite map2d_full.
Qed.

Lemma C2_solid_image_returns_nan_map_witness :
  exists bl,
    Canny.blurred (cells (Examples.heap_of (A3 Examples.solid10)) 0%nat) 1
      = Returned bl /\
    Canny.dense_of bl = full 10 10 (Fin 0) /\
    fst (Canny.compute 0%nat 1 (Examples.heap_of (A3 Examples.solid10)))
      = Returned 2%nat /\
    cells (snd (Canny.compute 0%nat 1 (Examples.heap_of (A3 Examples.solid10))))
      2%nat = A2 (full 10 10 NaN).
Proof.
  apply (C2_solid_image_returns_nan_map 10 10 (1 # 2) (1 # 2) (1 # 2) 1
           (Examples.heap_of (A3 Examples.solid10)) 0%nat).
  - lia.
  - lia.
  - lia.
  - reflexivity.
Defined.

(** C2 as stated fails: on the 10 x 10 solid-colour image with blur 1 no
    exception is raised, and the map that is returned is NaN everywhere. *)
Lemma C2_counterexample :
  (forall e, fst (Canny.compute 0%nat 1
                    (Examples.heap_of (A3 Examples.solid10))) <> Raised e) /\
  cells (snd (Canny.compute 0%nat 1 (Examples.heap_of (A3 Examples.solid10))))
    2%nat = A2 (full 10 10 NaN).
Proof.
  split.
  - intros e.
    assert (E : fst (Canny.compute 0%nat 1
                       (Examples.heap_of (A3 Examples.solid10)))
                = Returned 2%nat) by (vm_compute; reflexivity).
    rewrite E. discriminate.
  - vm_compute. reflexivity.
Qed.


Section EntropyMaximum.
Context {lib : ImageLib}.

(** What [Entropy.compute] returns for a blend of positive mean: the blend
    divided by its maximum. *)
Lemma Entropy_compute_positive_mean (hp : heap) (img : ref) (bal : fval)
    (mu : Q) :
  mean (Entropy.blend (cells hp img) bal) = Fin mu -> 0 < mu ->
  exists M,
    amax (Entropy.blend (cells hp img) bal) = Returned (Fin M) /\ 0 < M /\
    fst (Entropy.compute img bal hp) = Returned (next hp) /\
    cells (snd (Entropy.compute img bal hp)) (next hp)
      = A2 (div2 (Entropy.blend (cells hp img) bal) (Fin M)).
Proof.
  intros Hmean Hmu.
  destruct (mean_pos_amax_pos _ _ Hmean Hmu) as (M & HM & HMpos & F).
  exists M. split; [exact HM|]. split; [exact HMpos|].
  destruct (Entropy_compute_run img bal hp) as [_ Hrun].
  cbv zeta in Hrun. rewrite Hmean in Hrun.
  set (w := Entropy.blend (cells hp img) bal) in *.
  unfold div2 at 1 in Hrun.
  rewrite (amax_map2d _ w (Fin M) (div_pos_order_preserving mu Hmu) HM)
    in Hrun.
  destruct Hrun as [R1 R2]. split; [exact R1|]. rewrite R2. f_equal.
  unfold div2, map2d. rewrite map_map.
  apply map_ext_in. intros row Hrow. rewrite map_map.
  apply map_ext_in. intros x Hx.
  assert (Fx : finite x).
  { rewrite Forall_forall in F. apply F. apply in_concat. now exists row. }
  destruct Fx as [q ->].
  pose proof (Qcompare_pos mu Hmu) as Emu.
  pose proof (Qcompare_pos M HMpos) as EM.
  cbn [fdiv]. rewrite Emu, EM. unfold fin. cbn [fdiv].
  assert (P : 0 < Qred (M / mu)).
  { rewrite Qred_correct. apply Qlt_shift_div_l; lra. }
  rewrite (Qcompare_pos _ P). apply fin_eq.
  rewrite !Qred_correct. field. lra.
Qed.

End EntropyMaximum.

Lemma rgb_image_one_white : rgb_image Examples.one_white.
Proof.
  unfold rgb_image, Examples.one_white, Examples.grey. simpl.
  repeat split; try lia.
  repeat constructor; eexists; reflexivity.
Qed.


(** C6: for an RGB image whose gradient magnitude is not zero everywhere
    (its maximum is positive), the map that [Sobel.compute] returns has
    maximum exactly 255; this holds for both kernel sizes. *)
Theorem C6_sobel_maximum_255 {lib : ImageLib} (hp : heap) (img : ref)
    (im : array3) (k_size : Z) (m : Q) :
  cells hp img = A3 im ->
  (3 <= length (hd [] (hd [] im)))%nat ->
  k_size = 3%Z \/ k_size = 5%Z ->
  amax (Sobel.g_of im k_size) = Returned (Fin m) -> 0 < m ->
  exists w,
    fst (Sobel.compute img k_size hp) = Returned (next hp) /\
    cells (snd (Sobel.compute img k_size hp)) (next hp) = A2 w /\
    amax w = Returned (Fin 255).
Proof.
  intros Him Hc Hk Hm Hpos.
  destruct (Sobel_compute_run img k_size hp im Him Hc Hk) as [_ Hrun].
  rewrite Hm in Hrun. destruct Hrun as [R1 R2].
  eexists. split; [exact R1|]. split; [exact R2|].
  cbn [fdiv]. rewrite (Qcompare_pos m Hpos). unfold fin.
  assert (P : 0 < Qred (255 / m)).
  { rewrite Qred_correct. apply Qlt_shift_div_l; lra. }
  unfold times2.
  rewrite (amax_map2d _ _ (Fin m) (mul_pos_order_preserving _ P) Hm).
  f_equal. cbn [fmul].
  assert (E : m * Qred (255 / m) == 255).
  { rewrite Qred_correct. field. lra. }
  now rewrite (fin_eq _ _ E).
Qed.

Lemma C6_sobel_maximum_255_witness :
  exists w,
    fst (@Sobel.compute Examples.plain_lib 0%nat 5
           (Examples.heap_of (A3 Examples.one_white))) = Returned 1%nat /\
    cells (snd (@Sobel.compute Examples.plain_lib 0%nat 5
                  (Examples.heap_of (A3 Examples.one_white)))) 1%nat = A2 w /\
    amax w = Returned (Fin 255).
Proof.
  apply (@C6_sobel_maximum_255 Examples.plain_lib
           (Examples.heap_of (A3 Examples.one_white)) 0%nat
           Examples.one_white 5 (926819 # 32768)).
  - reflexivity.
  - simpl. lia.
  - right. reflexivity.
  - vm_compute. reflexivity.
  - reflexivity.
Defined.

(** C6 as stated fails: a well-formed image of two colours of one luminance
    is not constant (its pixels differ as numbers), yet its gradient magnitude is zero everywhere;
    [Sobel.compute], with either kernel size, multiplies the zero map by
    [255.0 / 0] and returns a map that is NaN everywhere, whose maximum is
    NaN, not 255. *)
Lemma C6_counterexample :
  rgb_image MoreExamples.two_colours /\
  ~ constant MoreExamples.two_colours /\
  varies MoreExamples.two_colours /\
  (forall k_size, k_size = 3%Z \/ k_size = 5%Z ->
     @Sobel.g_of Examples.plain_lib MoreExamples.two_colours k_size
       = full 2 2 (Fin 0) /\
     fst (@Sobel.compute Examples.plain_lib 0%nat k_size
            (Examples.heap_of (A3 MoreExamples.two_colours)))
       = Returned 1%nat /\
     cells (snd (@Sobel.compute Examples.plain_lib 0%nat k_size
                   (Examples.heap_of (A3 MoreExamples.two_colours)))) 1%nat
       = A2 (full 2 2 NaN)) /\
  amax (full 2 2 NaN) = Returned NaN.
Proof.
  split; [|split; [|split; [|split]]].
  - unfold rgb_image, MoreExamples.two_colours, Examples.grey. simpl.
    repeat split; try lia.
    repeat constructor; eexists; reflexivity.
  - intros [px H]. unfold MoreExamples.two_colours in H.
    inversion H as [|? ? Hrow0 Hrows]; subst.
    inversion Hrow0 as [|? ? E0 _]; subst.
    inversion Hrows as [|? ? Hrow1 _]; subst.
    inversion Hrow1 as [|? ? _ Hrest]; subst.
    inversion Hrest as [|? ? E1 _]; subst.
    discriminate E1.
  - exists 1%nat, 1%nat, 0%nat. repeat split; try (simpl; lia).
    vm_compute. discriminate.
  - intros k_size [-> | ->]; repeat split; vm_compute; reflexivity.
  - reflexivity.
Qed.

(** C10, with divisions that do not round: when the blend has a positive
    mean, what [Entropy.compute] returns after dividing by the mean and
    then by the maximum is the very map that division by the maximum alone
    gives. *)
Theorem C10_mean_step_has_no_effect {lib : ImageLib} (hp : heap) (img : ref)
    (bal : fval) (mu : Q) :
  mean (Entropy.blend (cells hp img) bal) = Fin mu -> 0 < mu ->
  exists w,
    fst (Entropy.compute img bal hp) = Returned (next hp) /\
    cells (snd (Entropy.compute img bal hp)) (next hp) = A2 w /\
    max_normalised (Entropy.blend (cells hp img) bal) = Returned w.
Proof.
  intros Hmean Hmu.
  destruct (Entropy_compute_positive_mean hp img bal mu Hmean Hmu)
    as (M & HM & _ & R1 & R2).
  eexists. split; [exact R1|]. split; [exact R2|].
  unfold max_normalised. now rewrite HM.
Qed.

Lemma C10_mean_step_has_no_effect_witness :
  exists w,
    fst (@Entropy.compute Examples.plain_lib 0%nat Entropy.default_bal
           (Examples.heap_of (A3 Examples.one_white))) = Returned 1%nat /\
    cells (snd (@Entropy.compute Examples.plain_lib 0%nat Entropy.default_bal
                  (Examples.heap_of (A3 Examples.one_white)))) 1%nat = A2 w /\
    max_normalised
      (@Entropy.blend Examples.plain_lib
         (cells (Examples.heap_of (A3 Examples.one_white)) 0%nat)
         Entropy.default_bal) = Returned w.
Proof.
  apply (@C10_mean_step_has_no_effect Examples.plain_lib
           (Examples.heap_of (A3 Examples.one_white)) 0%nat
           Entropy.default_bal (1 # 4)).
  - vm_compute. reflexivity.
  - reflexivity.
Defined.

(** C10 as stated fails once the two divisions round as binary64 divisions
    do: for the map that holds 0.1, 0.2, 0.3 and 0.7, of positive mean,
    division by the mean and then by the maximum leaves
    [7720456504063707 / 2^54] in the third cell, division by the maximum
    alone leaves [7720456504063708 / 2^54]. *)
Lemma C10_counterexample :
  0 < Binary64.mean Binary64.blend4 /\
  nth 2 (Binary64.mean_then_max Binary64.blend4) 0
    = 7720456504063707 # 18014398509481984 /\
  nth 2 (Binary64.max_only Binary64.blend4) 0
    = 1930114126015927 # 4503599627370496 /\
  Binary64.mean_then_max Binary64.blend4 <> Binary64.max_only Binary64.blend4.
Proof.
  repeat split; try (vm_compute; reflexivity).
  vm_compute. discriminate.
Qed.

(** C9: whatever the heap and the arguments, and whether they return or
    raise, the three [compute] functions leave the image object as it was:
    they write only to arrays they have allocated themselves. *)
Theorem C9_image_not_mutated {lib : ImageLib} (hp : heap) (img : ref)
    (blur : Z) (bal : fval) (k_size : Z) :
  (img < next hp)%nat ->
  cells (snd (Canny.compute img blur hp)) img = cells hp img /\
  cells (snd (Entropy.compute img bal hp)) img = cells hp img /\
  cells (snd (Sobel.compute img k_size hp)) img = cells hp img.
Proof.
  intros Himg. repeat split.
  - now apply (Canny_compute_extends img blur hp).
  - now apply (Entropy_compute_run img bal hp).
  - now apply (Sobel_compute_extends img k_size hp).
Qed.

Lemma C9_image_not_mutated_witness :
  let hp := Examples.heap_of (A3 Examples.one_white) in
  cells (snd (Canny.compute 0%nat 1 hp)) 0%nat = cells hp 0%nat /\
  cells (snd (@Entropy.compute Examples.plain_lib 0%nat Entropy.default_bal hp))
    0%nat = cells hp 0%nat /\
  cells (snd (@Sobel.compute Examples.plain_lib 0%nat 3 hp)) 0%nat
    = cells hp 0%nat.
Proof.
  apply (@C9_image_not_mutated Examples.plain_lib
           (Examples.heap_of (A3 Examples.one_white)) 0%nat 1
           Entropy.default_bal 3).
  simpl. lia.
Defined.

(** [py_round] returns a nearest integer. *)
Lemma py_round_nearest (x : Q) :
  - (1 # 2) <= x - inject_Z (py_round x) <= 1 # 2.
Proof.
  unfold py_round.
  pose proof (Qfloor_le x) as L. pose proof (Qlt_floor x) as U.
  rewrite inject_Z_plus in U. change (inject_Z 1) with 1 in U.
  destruct (Qcompare_spec (x - inject_Z (Qfloor x)) (1 # 2)) as [E|E|E].
  - destruct (Z.even (Qfloor x)).
    + lra.
    + rewrite inject_Z_plus. change (inject_Z 1) with 1. lra.
  - lra.
  - rewrite inject_Z_plus. change (inject_Z 1) with 1. lra.
Qed.

(** C4: [EdgePoints.__init__] raises the excessive-point-count warning
    exactly when [n > round(width * height * 0.5)], and otherwise returns
    the extractor; in both cases the heap is left as it was, so nothing has
    been computed or allocated by then. *)
Theorem C4_point_count_checked_first (hp : heap) (img : ref) (n : Z)
    (edge : selector EdgeMethod) :
  let W := Z.of_nat (shape0 (cells hp img)) in
  let H := Z.of_nat (shape1 (cells hp img)) in
  ((n > py_round (inject_Z (W * H) * (5 # 10)))%Z ->
   EdgePoints.init img n edge hp
   = (Raised (UserWarning "The number of points is too large"), hp)) /\
  ((n <= py_round (inject_Z (W * H) * (5 # 10)))%Z ->
   EdgePoints.init img n edge hp
   = (Returned {| EdgePoints.img := img;
                  EdgePoints.width := W;
                  EdgePoints.height := H;
                  EdgePoints.num_of_points := n;
                  EdgePoints.edge_method := edge |}, hp)).
Proof.
  intros W H. unfold EdgePoints.init, bind, get, EdgePoints.max_points.
  fold W. fold H. split; intros Hn.
  - destruct (Z.gtb_spec n (py_round (inject_Z (W * H) * (5 # 10))));
      [reflexivity|lia].
  - destruct (Z.gtb_spec n (py_round (inject_Z (W * H) * (5 # 10))));
      [lia|reflexivity].
Qed.

Lemma C4_point_count_checked_first_witness :
  let hp := Examples.heap_of (A3 Examples.one_white) in
  ((3 > py_round (inject_Z (2 * 2) * (5 # 10)))%Z /\
   EdgePoints.init 0%nat 3 (Member CANNY) hp
   = (Raised (UserWarning "The number of points is too large"), hp)) /\
  ((2 <= py_round (inject_Z (2 * 2) * (5 # 10)))%Z /\
   EdgePoints.init 0%nat 2 (Member CANNY) hp
   = (Returned {| EdgePoints.img := 0%nat;
                  EdgePoints.width := 2;
                  EdgePoints.height := 2;
                  EdgePoints.num_of_points := 2;
                  EdgePoints.edge_method := Member CANNY |}, hp)).
Proof.
  intros hp. split; split.
  - reflexivity.
  - apply (C4_point_count_checked_first hp 0%nat 3 (Member CANNY)).
    reflexivity.
  - discriminate.
  - apply (C4_point_count_checked_first hp 0%nat 2 (Member CANNY)).
    discriminate.
Defined.

Section Extraction.
Context {lib : ImageLib} {samplers : Sampling}.

(** What [get_edge_points] returns comes from the sampler, with the corners
    appended. *)
Lemma get_edge_points_returned (self : EdgePoints.t) (blur : Z)
    (sampling : selector SampleMethod) (hp : heap) (pts : list point) :
  fst (EdgePoints.get_edge_points self blur sampling hp) = Returned pts ->
  exists (sampled : list point) (weights : array2),
    pts = (sampled ++ EdgePoints.corners self)%list /\
    ((sampling = Member POISSON_DISK /\
      poisson_disk_sample (EdgePoints.num_of_points self) weights
        = Returned sampled) \/
     (sampling = Member THRESHOLD /\
      threshold_sample (EdgePoints.num_of_points self) weights (Fin (2 # 10))
        = Returned sampled)).
Proof.
  unfold EdgePoints.get_edge_points. unfold bind at 1.
  set (dispatch := match EdgePoints.edge_method self with
                   | Member CANNY => _
                   | Member ENTROPY => _
                   | Member SOBEL => _
                   | Foreign _ => _
                   end).
  destruct (dispatch hp) as [[edges|e] hp1]; [|discriminate].
  unfold bind at 1. unfold get at 1. unfold bind at 1.
  destruct sampling as [[|]|shown]; unfold lift, raise, ret.
  - destruct (poisson_disk_sample _ _) as [sampled|e] eqn:E; [|discriminate].
    cbn [fst]. intros H. injection H as <-.
    exists sampled, (as2 (cells hp1 edges)). split; [reflexivity|].
    left. split; [reflexivity|exact E].
  - destruct (threshold_sample _ _ _) as [sampled|e] eqn:E; [|discriminate].
    cbn [fst]. intros H. injection H as <-.
    exists sampled, (as2 (cells hp1 edges)). split; [reflexivity|].
    right. split; [reflexivity|exact E].
  - discriminate.
Qed.

End Extraction.

(** C3: when an extractor built by [__init__] returns from
    [get_edge_points], the result is what the chosen sampler returned,
    followed by the four corners [(0,0)], [(0,H-1)], [(W-1,0)],
    [(W-1,H-1)] of the image, in this order; its length is the number of
    sampled points plus 4. *)
Theorem C3_corners_appended {lib : ImageLib} {samplers : Sampling}
    (hp : heap) (img : ref) (n : Z) (edge : selector EdgeMethod)
    (self : EdgePoints.t) (blur : Z) (sampling : selector SampleMethod)
    (pts : list point) :
  fst (EdgePoints.init img n edge hp) = Returned self ->
  fst (EdgePoints.get_edge_points self blur sampling hp) = Returned pts ->
  let W := Z.of_nat (shape0 (cells hp img)) in
  let H := Z.of_nat (shape1 (cells hp img)) in
  exists (sampled : list point) (weights : array2),
    ((sampling = Member POISSON_DISK /\
      poisson_disk_sample n weights = Returned sampled) \/
     (sampling = Member THRESHOLD /\
      threshold_sample n weights (Fin (2 # 10)) = Returned sampled)) /\
    pts = (sampled ++ [(0, 0); (0, H - 1); (W - 1, 0); (W - 1, H - 1)]%Z)%list /\
    length pts = (length sampled + 4)%nat /\
    skipn (length sampled) pts
      = [(0, 0); (0, H - 1); (W - 1, 0); (W - 1, H - 1)]%Z.
Proof.
  intros Hinit Hget W H.
  assert (Hself : self = {| EdgePoints.img := img;
                            EdgePoints.width := W;
                            EdgePoints.height := H;
                            EdgePoints.num_of_points := n;
                            EdgePoints.edge_method := edge |}).
  { unfold EdgePoints.init, bind, get in Hinit. fold W H in Hinit.
    destruct (n >? EdgePoints.max_points W H)%Z; [discriminate|].
    unfold ret in Hinit. cbn [fst] in Hinit. congruence. }
  destruct (get_edge_points_returned self blur sampling hp pts Hget)
    as (sampled & weights & Hpts & Hs).
  exists sampled, weights. rewrite Hself in Hs, Hpts.
  unfold EdgePoints.corners in Hpts.
  cbn [EdgePoints.num_of_points EdgePoints.width EdgePoints.height] in *.
  split; [exact Hs|]. split; [exact Hpts|]. rewrite Hpts. split.
  - now rewrite length_app.
  - rewrite skipn_app, skipn_all, Nat.sub_diag. reflexivity.
Qed.

Lemma C3_corners_appended_witness :
  let hp := Examples.heap_of (A3 Examples.one_white) in
  let self := {| EdgePoints.img := 0%nat;
                 EdgePoints.width := 2;
                 EdgePoints.height := 2;
                 EdgePoints.num_of_points := 1;
                 EdgePoints.edge_method := Member CANNY |} in
  let pts := [(1, 1); (0, 0); (0, 1); (1, 0); (1, 1)]%Z in
  fst (EdgePoints.init 0%nat 1 (Member CANNY) hp) = Returned self /\
  fst (@EdgePoints.get_edge_points Examples.plain_lib Examples.plain_samplers
         self 0 (Member POISSON_DISK) hp) = Returned pts /\
  exists (sampled : list point) (weights : array2),
    ((Member POISSON_DISK = Member POISSON_DISK /\
      @poisson_disk_sample Examples.plain_samplers 1 weights
        = Returned sampled) \/
     (Member POISSON_DISK = Member THRESHOLD /\
      @threshold_sample Examples.plain_samplers 1 weights (Fin (2 # 10))
        = Returned sampled)) /\
    pts = (sampled ++ [(0, 0); (0, 2 - 1); (2 - 1, 0); (2 - 1, 2 - 1)]%Z)%list /\
    length pts = (length sampled + 4)%nat /\
    skipn (length sampled) pts
      = [(0, 0); (0, 2 - 1); (2 - 1, 0); (2 - 1, 2 - 1)]%Z.
Proof.
  intros hp self pts.
  assert (Hinit : fst (EdgePoints.init 0%nat 1 (Member CANNY) hp)
                  = Returned self) by reflexivity.
  assert (Hget : fst (@EdgePoints.get_edge_points Examples.plain_lib
                        Examples.plain_samplers self 0 (Member POISSON_DISK)
                        hp) = Returned pts) by (vm_compute; reflexivity).
  split; [exact Hinit|]. split; [exact Hget|].
  exact (@C3_corners_appended Examples.plain_lib Examples.plain_samplers
           hp 0%nat 1 (Member CANNY) self 0 (Member POISSON_DISK) pts
           Hinit Hget).
Defined.

(** C8, the behaviour at a selector outside [EdgeMethod]: [get_edge_points]
    raises a [ValueError] before anything is computed (the heap is
    untouched), but the message is formatted with the name and the members
    of [SampleMethod], the enumeration of the sampling strategies, none of
    which is a saliency algorithm. *)
Theorem C8_unsupported_edge_method_message {lib : ImageLib}
    {samplers : Sampling} (img : ref) (w h n : Z) (shown : string)
    (blur : Z) (sampling : selector SampleMethod) (hp : heap) :
  EdgePoints.get_edge_points
    {| EdgePoints.img := img; EdgePoints.width := w; EdgePoints.height := h;
       EdgePoints.num_of_points := n;
       EdgePoints.edge_method := Foreign shown |} blur sampling hp
  = (Raised (ValueError
               ("Unexpected edge processing method: {}" ++ nl ++
                "use {} instead: {}")
               [Str shown; Str "SampleMethod";
                Names ["POISSON_DISK"; "THRESHOLD"]]), hp) /\
  ~ In "CANNY" SampleMethod_members /\
  ~ In "ENTROPY" SampleMethod_members /\
  ~ In "SOBEL" SampleMethod_members.
Proof.
  split; [reflexivity|].
  unfold SampleMethod_members.
  repeat split; intros [E|[E|[]]]; discriminate E.
Qed.


(* ================================================================== *)
(** * Further properties of the code *)

(** ** Shapes *)

Lemma shape2_map2d (f : fval -> fval) (w h : nat) (a : array2) :
  shape2 w h a -> shape2 w h (map2d f a).
Proof.
  intros [L R]. split; [now rewrite map2d_length|].
  unfold map2d. apply Forall_forall. intros row Hrow.
  apply in_map_iff in Hrow. destruct Hrow as [r0 [<- Hr0]].
  rewrite length_map. rewrite Forall_forall in R. now apply R.
Qed.

Lemma shape2_height (w h : nat) (a : array2) :
  shape2 w h a -> (0 < w)%nat -> height2 a = h.
Proof.
  intros [L R] Hw. unfold height2. destruct a as [|r a]; simpl in *; [lia|].
  now inversion R.
Qed.

Lemma shape2_convolve2d (w h : nat) (src ker : array2) :
  shape2 w h src -> (0 < w)%nat -> shape2 w h (convolve2d src ker).
Proof.
  intros S Hw. split.
  - rewrite convolve2d_length. apply S.
  - rewrite <- (shape2_height w h src S Hw). apply convolve2d_rows.
Qed.

Lemma shape2_rgb2gray (im : array3) :
  rgb_image im ->
  shape2 (length im) (length (hd [] im)) (rgb2gray (A3 im)).
Proof.
  intros (_ & _ & H). unfold rgb2gray. split; [apply length_map|].
  apply Forall_forall. intros row Hrow.
  apply in_map_iff in Hrow. destruct Hrow as [col [<- Hcol]].
  rewrite length_map. rewrite Forall_forall in H. now apply H.
Qed.

Lemma shape2_nonempty_amax (w h : nat) (a : array2) :
  shape2 w h a -> (0 < w)%nat -> (0 < h)%nat ->
  exists m, amax a = Returned m.
Proof.
  intros [L R] Hw Hh. unfold amax.
  destruct a as [|r a]; simpl in *; [lia|].
  inversion R as [|? ? Hr _]; subst.
  destruct r as [|x r]; simpl in *; [lia|]. now eexists.
Qed.

Lemma blurred_shape (im : array3) (blur : Z) :
  rgb_image im -> (0 <= blur)%Z ->
  exists bl, Canny.blurred (A3 im) blur = Returned bl /\
             shape2 (length im) (length (hd [] im)) bl.
Proof.
  intros Him Hb. unfold Canny.blurred.
  destruct (blur_filt_finite blur Hb) as [ker [-> _]].
  eexists. split; [reflexivity|].
  apply shape2_convolve2d; [now apply shape2_rgb2gray | apply Him].
Qed.

Lemma dense_of_shape (w h : nat) (bl : array2) :
  shape2 w h bl -> (0 < w)%nat -> shape2 w h (Canny.dense_of bl).
Proof.
  intros S Hw. unfold Canny.dense_of.
  apply shape2_convolve2d; [|exact Hw].
  apply shape2_map2d. now apply shape2_convolve2d.
Qed.

(** X1: on a well-formed RGB image and with a blur radius that is not
    negative, [Canny.compute] raises nothing and returns a newly allocated
    map that has the width and the height of the image. *)
Theorem Canny_compute_returns_image_shape (hp : heap) (img : ref)
    (im : array3) (blur : Z) :
  cells hp img = A3 im -> rgb_image im -> (0 <= blur)%Z ->
  exists w,
    fst (Canny.compute img blur hp) = Returned (S (next hp)) /\
    cells (snd (Canny.compute img blur hp)) (S (next hp)) = A2 w /\
    shape2 (length im) (length (hd [] im)) w.
Proof.
  intros Hc Him Hb.
  destruct (blurred_shape im blur Him Hb) as (bl & Ebl & Sbl).
  pose proof (dense_of_shape _ _ bl Sbl (proj1 Him)) as Sd.
  destruct (shape2_nonempty_amax _ _ _ Sd (proj1 Him) (proj1 (proj2 Him)))
    as [m Em].
  rewrite <- Hc in Ebl.
  destruct (Canny_compute_run img blur hp bl Ebl) as [_ Hrun].
  rewrite Em in Hrun. destruct Hrun as [R1 R2].
  exists (div2 (Canny.dense_of bl) m). split; [exact R1|].
  split; [exact R2|]. now apply shape2_map2d.
Qed.

Lemma Canny_compute_returns_image_shape_witness :
  exists w,
    fst (Canny.compute 0%nat 1 (Examples.heap_of (A3 Examples.one_white)))
      = Returned 2%nat /\
    cells (snd (Canny.compute 0%nat 1
                  (Examples.heap_of (A3 Examples.one_white)))) 2%nat = A2 w /\
    shape2 2 2 w.
Proof.
  apply (Canny_compute_returns_image_shape
           (Examples.heap_of (A3 Examples.one_white)) 0%nat
           Examples.one_white 1).
  - reflexivity.
  - exact rgb_image_one_white.
  - lia.
Defined.

(** X2: on a well-formed image, a negative blur radius makes the side
    [2 * blur + 1] of the averaging kernel negative; [np.ones] raises
    [ValueError] and [Canny.compute] stops there: nothing has been
    allocated. *)
Theorem Canny_negative_blur_raises (hp : heap) (img : ref) (im : array3)
    (blur : Z) :
  cells hp img = A3 im -> rgb_image im -> (blur < 0)%Z ->
  Canny.compute img blur hp
  = (Raised (ValueError "negative dimensions are not allowed" []), hp).
Proof.
  intros _ _ Hb. apply Canny_compute_raise.
  unfold Canny.blurred, Canny.blur_filt, np_ones.
  destruct (Z.ltb_spec (2 * blur + 1) 0) as [L|L]; [reflexivity|lia].
Qed.

Lemma Canny_negative_blur_raises_witness :
  Canny.compute 0%nat (-1) (Examples.heap_of (A3 Examples.one_white))
  = (Raised (ValueError "negative dimensions are not allowed" []),
     Examples.heap_of (A3 Examples.one_white)).
Proof.
  apply (Canny_negative_blur_raises
           (Examples.heap_of (A3 Examples.one_white)) 0%nat
           Examples.one_white (-1)).
  - reflexivity.
  - exact rgb_image_one_white.
  - lia.
Defined.

(** ** The range of the Canny weight map *)

Lemma fsum_nonneg (l : list fval) : Forall nonneg l -> nonneg (fsum l).
Proof.
  induction 1 as [|x l (a & -> & Ha) _ (t & Et & Ht)].
  - exists 0. split; [reflexivity|]. lra.
  - change (fsum (Fin a :: l)) with (fadd (Fin a) (fsum l)).
    rewrite Et. eexists. split; [reflexivity|].
    rewrite Qred_correct. lra.
Qed.

Lemma nonneg_finite (x : fval) : nonneg x -> finite x.
Proof. intros (q & -> & _). now exists q. Qed.

Lemma clamped_nonneg (a : array2) :
  Forall (Forall finite) a -> Forall (Forall nonneg) (map2d Canny.clamp a).
Proof.
  intros F. unfold map2d. apply Forall_forall. intros row Hrow.
  apply in_map_iff in Hrow. destruct Hrow as [r0 [<- Hr0]].
  apply Forall_forall. intros x Hx.
  apply in_map_iff in Hx. destruct Hx as [x0 [<- Hx0]].
  apply clamp_nonneg. rewrite Forall_forall in F.
  specialize (F r0 Hr0). rewrite Forall_forall in F. now apply F.
Qed.

Lemma densify_nonneg (th : array2) :
  Forall (Forall nonneg) th ->
  Forall (Forall nonneg) (convolve2d th (ones 3 3)).
Proof.
  intros Hth. unfold convolve2d.
  assert (N0 : nonneg (Fin 0)) by (exists 0; split; [reflexivity|lra]).
  assert (N1 : Forall (Forall nonneg) (ones 3 3)).
  { repeat constructor; exists 1; split; try reflexivity; lra. }
  apply Forall_forall. intros row Hrow.
  apply in_map_iff in Hrow. destruct Hrow as [i [<- _]].
  apply Forall_forall. intros x Hx.
  apply in_map_iff in Hx. destruct Hx as [j [<- _]].
  unfold conv_cell. apply fsum_nonneg.
  apply Forall_forall. intros y Hy.
  apply in_flat_map in Hy. destruct Hy as [a [_ Hy]].
  apply in_map_iff in Hy. destruct Hy as [b [<- _]].
  destruct (at2_Forall nonneg (ones 3 3) a b N0 N1) as (k & -> & Hk).
  match goal with |- nonneg (fmul _ (at2 th ?u ?v)) =>
    destruct (at2_Forall nonneg th u v N0 Hth) as (c & -> & Hc)
  end.
  eexists. split; [reflexivity|]. rewrite Qred_correct. nra.
Qed.

(** A map without negative cells, divided by its positive maximum, lies
    between 0 and 1. *)
Lemma div_by_max_within (a : array2) (m : Q) :
  Forall (Forall nonneg) a -> amax a = Returned (Fin m) -> 0 < m ->
  within 0 1 (div2 a (Fin m)).
Proof.
  intros N Hm Hpos. unfold amax in Hm.
  assert (F : Forall finite (concat a)).
  { apply Forall_concat. apply Forall_forall. intros row Hrow.
    rewrite Forall_forall in N. specialize (N row Hrow).
    apply Forall_forall. intros x Hx. rewrite Forall_forall in N.
    apply nonneg_finite. now apply N. }
  destruct (concat a) as [|x l] eqn:Ec; [discriminate|].
  destruct (fold_fmax_finite l x F) as (M & EM & HM).
  assert (E : M = m) by congruence. subst M.
  unfold within, div2, map2d. apply Forall_forall. intros row Hrow.
  apply in_map_iff in Hrow. destruct Hrow as [r0 [<- Hr0]].
  apply Forall_forall. intros y Hy.
  apply in_map_iff in Hy. destruct Hy as [y0 [<- Hy0]].
  rewrite Forall_forall in N. specialize (N r0 Hr0).
  rewrite Forall_forall in N. destruct (N y0 Hy0) as (q & -> & Hq).
  assert (Hle : q <= m).
  { apply HM. rewrite <- Ec. apply in_concat. now exists r0. }
  rewrite (fdiv_fin_pos q m Hpos). eexists. split; [reflexivity|].
  rewrite Qred_correct. split.
  - apply Qle_shift_div_l; [exact Hpos|]. lra.
  - apply Qle_shift_div_r; [exact Hpos|]. lra.
Qed.

(** X3: when some raw edge response of a well-formed image reaches the
    threshold, every cell of the map that [Canny.compute] returns is a
    number between 0 and 1: no NaN, no infinity, nothing negative. *)
Theorem Canny_weights_between_0_and_1 (hp : heap) (img : ref) (im : array3)
    (blur : Z) (bl : array2) (i j : nat) (q : Q) :
  cells hp img = A3 im -> rgb_image im ->
  Canny.blurred (A3 im) blur = Returned bl ->
  (i < width2 bl)%nat -> (j < height2 bl)%nat ->
  at2 (convolve2d bl Canny.edge_filt) i j = Fin q -> 3 # 256 <= q ->
  exists w,
    fst (Canny.compute img blur hp) = Returned (S (next hp)) /\
    cells (snd (Canny.compute img blur hp)) (S (next hp)) = A2 w /\
    within 0 1 w.
Proof.
  intros Hc Him Hb Hi Hj Hq Hthr.
  pose proof (edge_finite im blur bl Him Hb) as Fe.
  destruct (dense_max_positive bl i j q Fe Hi Hj Hq Hthr) as (m & Hm & Hpos).
  rewrite <- Hc in Hb.
  destruct (Canny_compute_run img blur hp bl Hb) as [_ Hrun].
  rewrite Hm in Hrun. destruct Hrun as [R1 R2].
  eexists. split; [exact R1|]. split; [exact R2|].
  apply div_by_max_within; [|exact Hm|exact Hpos].
  unfold Canny.dense_of. apply densify_nonneg. now apply clamped_nonneg.
Qed.

Lemma Canny_weights_between_0_and_1_witness :
  exists w,
    fst (Canny.compute 0%nat 0 (Examples.heap_of (A3 Examples.one_white)))
      = Returned 2%nat /\
    cells (snd (Canny.compute 0%nat 0
                  (Examples.heap_of (A3 Examples.one_white)))) 2%nat = A2 w /\
    within 0 1 w.
Proof.
  apply (Canny_weights_between_0_and_1
           (Examples.heap_of (A3 Examples.one_white)) 0%nat
           Examples.one_white 0 [[Fin 0; Fin 1]; [Fin 0; Fin 0]]
           0%nat 0%nat 2).
  - reflexivity.
  - exact rgb_image_one_white.
  - vm_compute. reflexivity.
  - unfold width2. simpl. lia.
  - unfold height2. simpl. lia.
  - vm_compute. reflexivity.
  - discriminate.
Defined.

(** ** [Sobel.compute]: what it accepts *)

(** X4: for an image with fewer than three channels [Sobel.compute] never
    returns a map.  With two channels [im[:, :, 2]] raises [IndexError];
    with one channel (or none) the branch [img = im] keeps a 3-D array,
    which [convolve2d] rejects with [ValueError] once the assertion on
    [k_size] has passed.  Nothing is allocated. *)
Theorem Sobel_needs_three_channels {lib : ImageLib} (hp : heap) (img : ref) (im : array3)
    (k_size : Z) :
  cells hp img = A3 im ->
  (length (hd [] (hd [] im)) < 3)%nat ->
  Sobel.compute img k_size hp
  = (Raised
       (if (length (hd [] (hd [] im)) =? 2)%nat
        then IndexError "index 2 is out of bounds for axis 2 with size 2"
        else if (k_size =? 3)%Z || (k_size =? 5)%Z
             then ValueError "convolve2d inputs must both be 2-D arrays" []
             else AssertionError), hp).
Proof.
  intros Hc Hlt. unfold Sobel.compute. unfold bind at 1. unfold get at 1.
  rewrite Hc.
  destruct (length (hd [] (hd [] im))) as [|[|[|c]]] eqn:Ec; try lia;
    cbn [Nat.ltb Nat.leb Nat.eqb]; unfold bind, ret, raise;
    try reflexivity;
    destruct (k_size =? 3)%Z eqn:E3; destruct (k_size =? 5)%Z eqn:E5;
    reflexivity.
Qed.

Lemma Sobel_needs_three_channels_witness :
  @Sobel.compute Examples.plain_lib 0%nat 3 (Examples.heap_of (A3 MoreExamples.one_channel))
  = (Raised (ValueError "convolve2d inputs must both be 2-D arrays" []),
     Examples.heap_of (A3 MoreExamples.one_channel)) /\
  @Sobel.compute Examples.plain_lib 0%nat 3 (Examples.heap_of (A3 MoreExamples.two_channels))
  = (Raised (IndexError "index 2 is out of bounds for axis 2 with size 2"),
     Examples.heap_of (A3 MoreExamples.two_channels)).
Proof.
  split.
  - apply (@Sobel_needs_three_channels Examples.plain_lib
             (Examples.heap_of (A3 MoreExamples.one_channel)) 0%nat
             MoreExamples.one_channel 3); [reflexivity | simpl; lia].
  - apply (@Sobel_needs_three_channels Examples.plain_lib
             (Examples.heap_of (A3 MoreExamples.two_channels)) 0%nat
             MoreExamples.two_channels 3); [reflexivity | simpl; lia].
Defined.

(** X5: on an image with three channels or more, a kernel size other than
    3 and 5 fails the assertion before anything is convolved or
    allocated. *)
Theorem Sobel_kernel_size_asserted {lib : ImageLib} (hp : heap) (img : ref) (im : array3)
    (k_size : Z) :
  cells hp img = A3 im ->
  (3 <= length (hd [] (hd [] im)))%nat ->
  k_size <> 3%Z -> k_size <> 5%Z ->
  Sobel.compute img k_size hp = (Raised AssertionError, hp).
Proof.
  intros Hc Hge H3 H5. unfold Sobel.compute. unfold bind at 1.
  unfold get at 1. rewrite Hc.
  assert (C1 : (1 <? length (hd [] (hd [] im)))%nat = true)
    by (apply Nat.ltb_lt; lia).
  assert (C3 : (length (hd [] (hd [] im)) <? 3)%nat = false)
    by (apply Nat.ltb_ge; lia).
  rewrite C1, C3.
  apply Z.eqb_neq in H3. apply Z.eqb_neq in H5.
  unfold bind, ret, raise. now rewrite H3, H5.
Qed.

Lemma Sobel_kernel_size_asserted_witness :
  @Sobel.compute Examples.plain_lib 0%nat 4 (Examples.heap_of (A3 Examples.one_white))
  = (Raised AssertionError, Examples.heap_of (A3 Examples.one_white)).
Proof.
  apply (@Sobel_kernel_size_asserted Examples.plain_lib
           (Examples.heap_of (A3 Examples.one_white)) 0%nat
           Examples.one_white 4).
  - reflexivity.
  - simpl. lia.
  - discriminate.
  - discriminate.
Defined.

(** ** [Sobel.compute] on well-formed images *)

Lemma shape2_zip_with (f : fval -> fval -> fval) (w h : nat) (a b : array2) :
  shape2 w h a -> shape2 w h b ->
  shape2 w h (zip_with (zip_with f) a b).
Proof.
  revert w b. induction a as [|r a IH]; intros w b [La Ra] [Lb Rb].
  - simpl in *. subst w. split; [reflexivity|constructor].
  - destruct b as [|s b]; simpl in *; [lia|].
    inversion Ra as [|? ? Hr Ra']; subst.
    inversion Rb as [|? ? Hs Rb']; subst.
    destruct (IH (length a) b) as [L R]; [now split|split; [lia|assumption]|].
    split; [simpl; now rewrite L|].
    constructor; [|exact R].
    clear - Hs. revert s Hs. induction r as [|x r IHr]; intros [|y s] Hs;
      simpl in *; try lia. f_equal. apply IHr. lia.
Qed.

Lemma shape2_channel (k : nat) (im : array3) :
  rgb_image im -> shape2 (length im) (length (hd [] im)) (channel k im).
Proof.
  intros (_ & _ & H). unfold channel. split; [apply length_map|].
  apply Forall_forall. intros row Hrow.
  apply in_map_iff in Hrow. destruct Hrow as [col [<- Hcol]].
  rewrite length_map. rewrite Forall_forall in H. now apply H.
Qed.

Lemma rgb_image_channels (im : array3) :
  rgb_image im -> length (hd [] (hd [] im)) = 3%nat.
Proof.
  intros (Hw & Hh & H). destruct im as [|col im]; simpl in *; [lia|].
  inversion H as [|? ? [_ Hcol] _]; subst.
  destruct col as [|px col]; simpl in *; [lia|].
  inversion Hcol as [|? ? [Hpx _] _]; subst. exact Hpx.
Qed.

Section SobelShape.
Context {lib : ImageLib}.

Lemma luminance_shape (im : array3) :
  rgb_image im ->
  shape2 (length im) (length (hd [] im)) (Sobel.luminance im).
Proof.
  intros Him. unfold Sobel.luminance, add2, scale2.
  repeat first [apply shape2_zip_with | apply shape2_map2d
               | now apply shape2_channel].
Qed.

Lemma g_of_shape (im : array3) (k_size : Z) :
  rgb_image im ->
  shape2 (length im) (length (hd [] im)) (Sobel.g_of im k_size).
Proof.
  intros Him. pose proof (luminance_shape im Him) as S.
  unfold Sobel.g_of. destruct (k_size =? 3)%Z;
    unfold Sobel.magnitude, add2, mul2;
    apply shape2_map2d; apply shape2_zip_with; apply shape2_zip_with;
    apply shape2_convolve2d; try exact S; apply Him.
Qed.

End SobelShape.

(** X6: on a well-formed RGB image and with kernel size 3 or 5,
    [Sobel.compute] raises nothing and returns a newly allocated map that
    has the width and the height of the image. *)
Theorem Sobel_compute_returns_image_shape {lib : ImageLib} (hp : heap)
    (img : ref) (im : array3) (k_size : Z) :
  cells hp img = A3 im -> rgb_image im ->
  k_size = 3%Z \/ k_size = 5%Z ->
  exists w,
    fst (Sobel.compute img k_size hp) = Returned (next hp) /\
    cells (snd (Sobel.compute img k_size hp)) (next hp) = A2 w /\
    shape2 (length im) (length (hd [] im)) w.
Proof.
  intros Hc Him Hk.
  pose proof (g_of_shape im k_size Him) as Sg.
  destruct (shape2_nonempty_amax _ _ _ Sg (proj1 Him) (proj1 (proj2 Him)))
    as [m Em].
  assert (C : (3 <= length (hd [] (hd [] im)))%nat)
    by (rewrite (rgb_image_channels im Him); lia).
  destruct (Sobel_compute_run img k_size hp im Hc C Hk) as [_ Hrun].
  rewrite Em in Hrun. destruct Hrun as [R1 R2].
  eexists. split; [exact R1|]. split; [exact R2|].
  unfold times2. now apply shape2_map2d.
Qed.

Lemma Sobel_compute_returns_image_shape_witness :
  exists w,
    fst (@Sobel.compute Examples.plain_lib 0%nat 3
           (Examples.heap_of (A3 Examples.one_white))) = Returned 1%nat /\
    cells (snd (@Sobel.compute Examples.plain_lib 0%nat 3
                  (Examples.heap_of (A3 Examples.one_white)))) 1%nat = A2 w /\
    shape2 2 2 w.
Proof.
  apply (@Sobel_compute_returns_image_shape Examples.plain_lib
           (Examples.heap_of (A3 Examples.one_white)) 0%nat
           Examples.one_white 3).
  - reflexivity.
  - exact rgb_image_one_white.
  - left. reflexivity.
Defined.

(** ** A zero blend through [Entropy.compute] *)

Lemma fsum_zeros (n : nat) : fsum (repeat (Fin 0) n) = Fin 0.
Proof.
  induction n as [|n IH]; [reflexivity|].
  change (fsum (repeat (Fin 0) (S n)))
    with (fadd (Fin 0) (fsum (repeat (Fin 0) n))).
  now rewrite IH.
Qed.

Lemma mean_zeros (w h : nat) :
  (0 < w)%nat -> (0 < h)%nat -> mean (full w h (Fin 0)) = Fin 0.
Proof.
  intros Hw Hh. unfold mean. rewrite concat_full, fsum_zeros, repeat_length.
  unfold of_nat, of_Z.
  assert (P : 0 < inject_Z (Z.of_nat (w * h))).
  { change 0 with (inject_Z 0). rewrite <- Zlt_Qlt. nia. }
  rewrite (fdiv_fin_pos _ _ P). apply (fin_eq _ 0). unfold Qdiv. ring.
Qed.

(** X8: when the blend of entropy and edges is zero everywhere, as for an
    image without any texture or edge, [Entropy.compute] raises nothing
    either: the division by the zero mean already turns every cell into
    NaN, and the map that is returned is NaN everywhere. *)
Theorem Entropy_zero_blend_returns_nan_map {lib : ImageLib} (w h : nat)
    (bal : fval) (hp : heap) (img : ref) :
  (0 < w)%nat -> (0 < h)%nat ->
  Entropy.blend (cells hp img) bal = full w h (Fin 0) ->
  fst (Entropy.compute img bal hp) = Returned (next hp) /\
  cells (snd (Entropy.compute img bal hp)) (next hp) = A2 (full w h NaN).
Proof.
  intros Hw Hh Hb.
  destruct (Entropy_compute_run img bal hp) as [_ Hrun].
  cbv zeta in Hrun. rewrite Hb, (mean_zeros w h Hw Hh) in Hrun.
  unfold div2 in Hrun. rewrite map2d_full in Hrun.
  change (fdiv (Fin 0) (Fin 0)) with NaN in Hrun.
  rewrite (amax_full w h NaN Hw Hh), map2d_full in Hrun.
  exact Hrun.
Qed.

Lemma Entropy_zero_blend_returns_nan_map_witness :
  fst (@Entropy.compute Examples.plain_lib 0%nat Entropy.default_bal
         (Examples.heap_of (A3 MoreExamples.black))) = Returned 1%nat /\
  cells (snd (@Entropy.compute Examples.plain_lib 0%nat Entropy.default_bal
                (Examples.heap_of (A3 MoreExamples.black)))) 1%nat
    = A2 (full 2 2 NaN).
Proof.
  apply (@Entropy_zero_blend_returns_nan_map Examples.plain_lib 2 2
           Entropy.default_bal (Examples.heap_of (A3 MoreExamples.black))
           0%nat).
  - lia.
  - lia.
  - vm_compute. reflexivity.
Defined.

(** ** [get_edge_points]: the order of its steps *)

Section ExtractionSteps.
Context {lib : ImageLib} {samplers : Sampling}.

(** [get_edge_points] is the dispatch followed by the sampling and the
    corners; these change no object. *)
Lemma get_edge_points_steps (self : EdgePoints.t) (blur : Z)
    (sampling : selector SampleMethod) (hp : heap) :
  EdgePoints.get_edge_points self blur sampling hp
  = match edges_of self blur hp with
    | (Returned edges, hp1) =>
        (match sampling with
         | Member POISSON_DISK =>
             match poisson_disk_sample (EdgePoints.num_of_points self)
                     (as2 (cells hp1 edges)) with
             | Returned s => Returned (s ++ EdgePoints.corners self)%list
             | Raised e => Raised e
             end
         | Member THRESHOLD =>
             match threshold_sample (EdgePoints.num_of_points self)
                     (as2 (cells hp1 edges)) (Fin (2 # 10)) with
             | Returned s => Returned (s ++ EdgePoints.corners self)%list
             | Raised e => Raised e
             end
         | Foreign shown => Raised (unexpected_sampling shown)
         end, hp1)
    | (Raised e, hp1) => (Raised e, hp1)
    end.
Proof.
  unfold EdgePoints.get_edge_points. unfold bind at 1.
  change (match EdgePoints.edge_method self with
          | Member CANNY => Canny.compute (EdgePoints.img self) blur
          | Member ENTROPY =>
              Entropy.compute (EdgePoints.img self) Entropy.default_bal
          | Member SOBEL => Sobel.compute (EdgePoints.img self) 5
          | Foreign shown =>
              raise (ValueError
                       ("Unexpected edge processing method: {}" ++ nl ++
                        "use {} instead: {}")
                       [Str shown; Str SampleMethod_name;
                        Names SampleMethod_members])
          end hp) with (edges_of self blur hp).
  destruct (edges_of self blur hp) as [[edges|e] hp1]; [|reflexivity].
  unfold bind, get, lift, raise, ret.
  destruct sampling as [[|]|shown]; try reflexivity.
  - now destruct (poisson_disk_sample _ _).
  - now destruct (threshold_sample _ _ _).
Qed.

Lemma edges_of_extends (self : EdgePoints.t) (blur : Z) (hp : heap) :
  extends hp (snd (edges_of self blur hp)).
Proof.
  unfold edges_of. destruct (EdgePoints.edge_method self) as [[| |]|shown].
  - apply Canny_compute_extends.
  - apply (Entropy_compute_run (EdgePoints.img self) Entropy.default_bal hp).
  - apply Sobel_compute_extends.
  - apply extends_refl.
Qed.

End ExtractionSteps.

(** X9: whatever the selectors, the image and the outcome of the
    samplers, [get_edge_points] leaves every object that existed before the
    call as it was; the arrays it works on are its own. *)
Theorem get_edge_points_keeps_existing_objects {lib : ImageLib}
    {samplers : Sampling} (self : EdgePoints.t) (blur : Z)
    (sampling : selector SampleMethod) (hp : heap) (r : ref) :
  (r < next hp)%nat ->
  cells (snd (EdgePoints.get_edge_points self blur sampling hp)) r
  = cells hp r.
Proof.
  intros Hr. rewrite get_edge_points_steps.
  pose proof (edges_of_extends self blur hp) as [_ E].
  destruct (edges_of self blur hp) as [[edges|e] hp1]; cbn [snd] in *;
    now apply E.
Qed.

Lemma get_edge_points_keeps_existing_objects_witness :
  let hp := Examples.heap_of (A3 Examples.one_white) in
  let self := {| EdgePoints.img := 0%nat;
                 EdgePoints.width := 2;
                 EdgePoints.height := 2;
                 EdgePoints.num_of_points := 1;
                 EdgePoints.edge_method := Member SOBEL |} in
  cells (snd (@EdgePoints.get_edge_points Examples.plain_lib
                Examples.plain_samplers self 0 (Member THRESHOLD) hp)) 0%nat
  = cells hp 0%nat.
Proof.
  intros hp self.
  apply (@get_edge_points_keeps_existing_objects Examples.plain_lib
           Examples.plain_samplers self 0 (Member THRESHOLD) hp 0%nat).
  simpl. lia.
Defined.

(** X10: the sampling selector is looked at only after the weight map has
    been computed.  With the Canny method, a well-formed image and an
    unsupported sampling selector, [get_edge_points] raises the
    [ValueError] for the selector, and by then the weight map of the image
    has been computed and stored in a new array. *)
Theorem unsupported_sampling_detected_after_saliency {lib : ImageLib}
    {samplers : Sampling} (self : EdgePoints.t) (blur : Z) (shown : string)
    (hp : heap) (im : array3) :
  EdgePoints.edge_method self = Member CANNY ->
  cells hp (EdgePoints.img self) = A3 im -> rgb_image im -> (0 <= blur)%Z ->
  fst (EdgePoints.get_edge_points self blur (Foreign shown) hp)
  = Raised (ValueError
              ("Unexpected sampling method: {}" ++ nl ++ "use {} instead: {}")
              [Str shown; Str "SampleMethod";
               Names ["POISSON_DISK"; "THRESHOLD"]]) /\
  exists w,
    cells (snd (EdgePoints.get_edge_points self blur (Foreign shown) hp))
      (S (next hp)) = A2 w /\
    shape2 (length im) (length (hd [] im)) w.
Proof.
  intros Hm Hc Him Hb. rewrite get_edge_points_steps.
  unfold edges_of. rewrite Hm.
  destruct (Canny_compute_returns_image_shape hp (EdgePoints.img self) im
              blur Hc Him Hb) as (w & R1 & R2 & S).
  destruct (Canny.compute (EdgePoints.img self) blur hp) as [o hp1].
  cbn [fst snd] in *. subst o. cbn [fst snd].
  split; [reflexivity|]. now exists w.
Qed.

Lemma unsupported_sampling_detected_after_saliency_witness :
  let hp := Examples.heap_of (A3 Examples.one_white) in
  let self := {| EdgePoints.img := 0%nat;
                 EdgePoints.width := 2;
                 EdgePoints.height := 2;
                 EdgePoints.num_of_points := 1;
                 EdgePoints.edge_method := Member CANNY |} in
  fst (@EdgePoints.get_edge_points Examples.plain_lib Examples.plain_samplers
         self 1 (Foreign "None") hp)
  = Raised (ValueError
              ("Unexpected sampling method: {}" ++ nl ++ "use {} instead: {}")
              [Str "None"; Str "SampleMethod";
               Names ["POISSON_DISK"; "THRESHOLD"]]) /\
  exists w,
    cells (snd (@EdgePoints.get_edge_points Examples.plain_lib
                  Examples.plain_samplers self 1 (Foreign "None") hp))
      2%nat = A2 w /\
    shape2 2 2 w.
Proof.
  intros hp self.
  apply (@unsupported_sampling_detected_after_saliency Examples.plain_lib
           Examples.plain_samplers self 1 "None" hp Examples.one_white).
  - reflexivity.
  - reflexivity.
  - exact rgb_image_one_white.
  - lia.
Defined.

(** X11: with the Canny method on a well-formed image, what
    [get_edge_points] returns or raises is decided by the sampler alone: the
    sampler is called with the requested point count and a weight map of
    the shape of the image (and the fraction 0.2 for the threshold
    sampler); its exception is passed on as it is, and its points are
    returned with the four corners appended. *)
Theorem get_edge_points_outcome_is_the_samplers {lib : ImageLib}
    {samplers : Sampling} (self : EdgePoints.t) (blur : Z) (hp : heap)
    (im : array3) :
  EdgePoints.edge_method self = Member CANNY ->
  cells hp (EdgePoints.img self) = A3 im -> rgb_image im -> (0 <= blur)%Z ->
  exists w,
    shape2 (length im) (length (hd [] im)) w /\
    fst (EdgePoints.get_edge_points self blur (Member POISSON_DISK) hp)
    = match poisson_disk_sample (EdgePoints.num_of_points self) w with
      | Returned s => Returned (s ++ EdgePoints.corners self)%list
      | Raised e => Raised e
      end /\
    fst (EdgePoints.get_edge_points self blur (Member THRESHOLD) hp)
    = match threshold_sample (EdgePoints.num_of_points self) w
              (Fin (2 # 10)) with
      | Returned s => Returned (s ++ EdgePoints.corners self)%list
      | Raised e => Raised e
      end.
Proof.
  intros Hm Hc Him Hb. rewrite !get_edge_points_steps.
  unfold edges_of. rewrite Hm.
  destruct (Canny_compute_returns_image_shape hp (EdgePoints.img self) im
              blur Hc Him Hb) as (w & R1 & R2 & S).
  destruct (Canny.compute (EdgePoints.img self) blur hp) as [o hp1].
  cbn [fst snd] in *. subst o. cbn [fst snd]. rewrite R2. cbn [as2].
  exists w. split; [exact S|]. split; reflexivity.
Qed.

Lemma get_edge_points_outcome_is_the_samplers_witness :
  let hp := Examples.heap_of (A3 Examples.one_white) in
  let self := {| EdgePoints.img := 0%nat;
                 EdgePoints.width := 2;
                 EdgePoints.height := 2;
                 EdgePoints.num_of_points := 1;
                 EdgePoints.edge_method := Member CANNY |} in
  exists w,
    shape2 2 2 w /\
    fst (@EdgePoints.get_edge_points Examples.plain_lib
           MoreExamples.failing_samplers self 0 (Member POISSON_DISK) hp)
    = match @poisson_disk_sample MoreExamples.failing_samplers 1 w with
      | Returned s => Returned (s ++ EdgePoints.corners self)%list
      | Raised e => Raised e
      end /\
    fst (@EdgePoints.get_edge_points Examples.plain_lib
           MoreExamples.failing_samplers self 0 (Member THRESHOLD) hp)
    = match @threshold_sample MoreExamples.failing_samplers 1 w
              (Fin (2 # 10)) with
      | Returned s => Returned (s ++ EdgePoints.corners self)%list
      | Raised e => Raised e
      end.
Proof.
  intros hp self.
  apply (@get_edge_points_outcome_is_the_samplers Examples.plain_lib
           MoreExamples.failing_samplers self 0 hp Examples.one_white).
  - reflexivity.
  - reflexivity.
  - exact rgb_image_one_white.
  - lia.
Defined.

(** X12: [__init__] reads only the first two dimensions, so it accepts a
    2-D (grey) array; with the Sobel method the extraction then fails for
    every blur radius and every sampling selector, supported or not,
    because [Sobel.compute] unpacks three dimensions. *)
Theorem sobel_extraction_rejects_grey_array {lib : ImageLib}
    {samplers : Sampling} (hp : heap) (img : ref) (g : array2) (n : Z)
    (self : EdgePoints.t) (blur : Z) (sampling : selector SampleMethod) :
  cells hp img = A2 g ->
  fst (EdgePoints.init img n (Member SOBEL) hp) = Returned self ->
  EdgePoints.get_edge_points self blur sampling hp
  = (Raised (ValueError "not enough values to unpack (expected 3, got 2)" []),
     hp).
Proof.
  intros Hc Hinit.
  assert (Hself : EdgePoints.img self = img /\
                  EdgePoints.edge_method self = Member SOBEL).
  { unfold EdgePoints.init, bind, get in Hinit.
    destruct (n >? _)%Z; [discriminate|].
    unfold ret in Hinit. cbn [fst] in Hinit.
    injection Hinit as <-. split; reflexivity. }
  destruct Hself as [Hi Hm].
  rewrite get_edge_points_steps. unfold edges_of. rewrite Hm, Hi.
  unfold Sobel.compute, bind, get. rewrite Hc. reflexivity.
Qed.

Lemma sobel_extraction_rejects_grey_array_witness :
  let hp := Examples.heap_of (A2 MoreExamples.grey2d) in
  let self := {| EdgePoints.img := 0%nat;
                 EdgePoints.width := 2;
                 EdgePoints.height := 2;
                 EdgePoints.num_of_points := 2;
                 EdgePoints.edge_method := Member SOBEL |} in
  fst (EdgePoints.init 0%nat 2 (Member SOBEL) hp) = Returned self /\
  @EdgePoints.get_edge_points Examples.plain_lib Examples.plain_samplers
    self 0 (Member POISSON_DISK) hp
  = (Raised (ValueError "not enough values to unpack (expected 3, got 2)" []),
     hp).
Proof.
  intros hp self.
  assert (Hinit : fst (EdgePoints.init 0%nat 2 (Member SOBEL) hp)
                  = Returned self) by reflexivity.
  split; [exact Hinit|].
  exact (@sobel_extraction_rejects_grey_array Examples.plain_lib
           Examples.plain_samplers hp 0%nat MoreExamples.grey2d 2 self 0
           (Member POISSON_DISK) eq_refl Hinit).
Defined.

(** ** The returned map is a new object *)

Lemma Canny_returned_ref (img : ref) (blur : Z) (hp : heap) (r : ref) :
  fst (Canny.compute img blur hp) = Returned r -> r = S (next hp).
Proof.
  intros H. destruct (Canny.blurred (cells hp img) blur) as [bl|e] eqn:Hb.
  - destruct (Canny_compute_run img blur hp bl Hb) as [_ Hrun].
    destruct (amax (Canny.dense_of bl)) as [m|e].
    + destruct Hrun as [R1 _]. congruence.
    + congruence.
  - rewrite (Canny_compute_raise img blur hp e Hb) in H. discriminate.
Qed.

Lemma Entropy_returned_ref {lib : ImageLib} (img : ref) (bal : fval)
    (hp : heap) (r : ref) :
  fst (Entropy.compute img bal hp) = Returned r -> r = next hp.
Proof.
  intros H. destruct (Entropy_compute_run img bal hp) as [_ Hrun].
  cbv zeta in Hrun.
  destruct (amax _) as [m|e]; [destruct Hrun as [R1 _]|]; congruence.
Qed.

Lemma Sobel_returned_ref {lib : ImageLib} (img : ref) (k_size : Z)
    (hp : heap) (r : ref) :
  fst (Sobel.compute img k_size hp) = Returned r -> r = next hp.
Proof.
  unfold Sobel.compute. unfold bind at 1. unfold get at 1.
  destruct (cells hp img) as [g|im]; [discriminate|].
  unfold bind at 1.
  destruct (1 <? length (hd [] (hd [] im)))%nat;
    [destruct (length (hd [] (hd [] im)) <? 3)%nat|];
    unfold raise, ret; try discriminate;
    (unfold bind at 1;
     destruct ((k_size =? 3)%Z || (k_size =? 5)%Z);
     unfold raise, ret; [|discriminate];
     destruct (k_size =? 3)%Z;
     unfold bind, get, new, put, lift, ret, Sobel.convolve2d_checked;
     try discriminate;
     cbn [cells next]; rewrite ?upd_same; cbn [as2];
     match goal with |- context [amax ?g] => destruct (amax g) as [m|e] end;
     cbn [fst]; congruence).
Qed.

(** X13: a map returned by one of the three [compute] functions is an
    object allocated during the call: its reference is none of the heap
    the caller passed in, so the map shares nothing with the image or with
    a map returned earlier. *)
Theorem compute_returns_new_object {lib : ImageLib} (hp : heap) (img : ref)
    (blur : Z) (bal : fval) (k_size : Z) (r : ref) :
  (fst (Canny.compute img blur hp) = Returned r -> (next hp <= r)%nat) /\
  (fst (Entropy.compute img bal hp) = Returned r -> (next hp <= r)%nat) /\
  (fst (Sobel.compute img k_size hp) = Returned r -> (next hp <= r)%nat).
Proof.
  repeat split; intros H.
  - rewrite (Canny_returned_ref img blur hp r H). lia.
  - rewrite (Entropy_returned_ref img bal hp r H). lia.
  - rewrite (Sobel_returned_ref img k_size hp r H). lia.
Qed.

Lemma compute_returns_new_object_witness :
  let hp := Examples.heap_of (A3 Examples.one_white) in
  (fst (Canny.compute 0%nat 0 hp) = Returned 2%nat /\ (next hp <= 2)%nat) /\
  (fst (@Entropy.compute Examples.plain_lib 0%nat Entropy.default_bal hp)
   = Returned 1%nat /\ (next hp <= 1)%nat) /\
  (fst (@Sobel.compute Examples.plain_lib 0%nat 3 hp) = Returned 1%nat /\
   (next hp <= 1)%nat).
Proof.
  intros hp.
  assert (HC : fst (Canny.compute 0%nat 0 hp) = Returned 2%nat)
    by (vm_compute; reflexivity).
  assert (HE : fst (@Entropy.compute Examples.plain_lib 0%nat
                      Entropy.default_bal hp) = Returned 1%nat)
    by (vm_compute; reflexivity).
  assert (HS : fst (@Sobel.compute Examples.plain_lib 0%nat 3 hp)
               = Returned 1%nat) by (vm_compute; reflexivity).
  repeat split; try assumption.
  - exact (proj1 (@compute_returns_new_object Examples.plain_lib hp 0%nat
                    0 Entropy.default_bal 3 2%nat) HC).
  - exact (proj1 (proj2 (@compute_returns_new_object Examples.plain_lib hp
                           0%nat 0 Entropy.default_bal 3 1%nat)) HE).
  - exact (proj2 (proj2 (@compute_returns_new_object Examples.plain_lib hp
                           0%nat 0 Entropy.default_bal 3 1%nat)) HS).
Defined.

(** ** The largest point count that [__init__] accepts *)

Lemma Qfloor_half (k : Z) : Qfloor (inject_Z k * (5 # 10)) = (k / 2)%Z.
Proof.
  unfold Qfloor, Qmult, inject_Z. cbn [Qnum Qden].
  change (Z.pos (1 * 10)) with (2 * 5)%Z.
  apply Z.div_mul_cancel_r; lia.
Qed.

(** X14: the bound [round(width * height * 0.5)] is half the pixel count
    when that count is even; when it is odd the tie is rounded to the even
    neighbour, so the bound is [(W * H - 1) / 2] or [(W * H + 1) / 2],
    whichever is even (4 for a 3 x 3 image, 2 for a 5 x 1 image). *)
Theorem max_points_rounds_half_to_even (width height : Z) :
  EdgePoints.max_points width height
  = if Z.even (width * height) then (width * height / 2)%Z
    else if Z.even (width * height / 2) then (width * height / 2)%Z
         else (width * height / 2 + 1)%Z.
Proof.
  unfold EdgePoints.max_points, py_round. rewrite Qfloor_half.
  set (k := (width * height)%Z).
  pose proof (Z.div_mod k 2 ltac:(lia)) as D.
  pose proof (Z.mod_pos_bound k 2 ltac:(lia)) as B.
  assert (X : inject_Z k * (5 # 10) - inject_Z (k / 2)
              == inject_Z (k mod 2) * (1 # 2)).
  { rewrite D at 1. rewrite inject_Z_plus, inject_Z_mult.
    change (inject_Z 2) with 2. ring. }
  rewrite X.
  destruct (Z.even k) eqn:Ev.
  - assert (M : (k mod 2 = 0)%Z).
    { apply Z.even_spec in Ev. destruct Ev as [j ->].
      rewrite Z.mul_comm. apply Z.mod_mul. lia. }
    rewrite M. reflexivity.
  - assert (M : (k mod 2 = 1)%Z).
    { destruct (Z.eq_dec (k mod 2) 0) as [E0|E0]; [|lia].
      exfalso. rewrite E0, Z.add_0_r in D.
      assert (Z.even k = true) by (apply Z.even_spec; now exists (k / 2)%Z).
      congruence. }
    rewrite M. reflexivity.
Qed.

(** ** An image without an edge response at the threshold *)

Lemma full_of_cells (w h : nat) (v : fval) (a : array2) :
  shape2 w h a ->
  (forall i j, (i < w)%nat -> (j < h)%nat -> at2 a i j = v) ->
  a = full w h v.
Proof.
  intros [L R] H.
  assert (RL : forall i, (i < w)%nat -> length (nth i a []) = h).
  { intros i Hi. rewrite Forall_forall in R. apply R. apply nth_In. lia. }
  apply array2_ext.
  - now rewrite full_length.
  - intros i. destruct (Nat.lt_ge_cases i w) as [Hi|Hi].
    + rewrite (RL i Hi). unfold full.
      rewrite nth_repeat_lt by assumption. now rewrite repeat_length.
    + rewrite !nth_overflow; [reflexivity| |]; [rewrite full_length|]; lia.
  - intros i j.
    destruct (Nat.lt_ge_cases i w) as [Hi|Hi];
      [destruct (Nat.lt_ge_cases j h) as [Hj|Hj]|].
    + rewrite (H i j Hi Hj). now rewrite at2_full.
    + rewrite !at2_out; [reflexivity| |].
      * rewrite full_length. unfold full.
        rewrite nth_repeat_lt by assumption. rewrite repeat_length. lia.
      * rewrite (RL i Hi). lia.
    + rewrite !at2_out; [reflexivity| |]; [rewrite full_length|]; lia.
Qed.

Lemma clamp_below (q : Q) : q < 3 # 256 -> Canny.clamp (Fin q) = Fin 0.
Proof.
  intros H. unfold Canny.clamp. rewrite threshold_value. unfold flt.
  assert (L : (q ?= 3 # 256) = Lt) by (now apply Qlt_alt).
  now rewrite L.
Qed.

(** X15: on a well-formed image whose raw edge responses all stay below
    3/256 (a solid-colour image is one, a low-contrast image another),
    [Canny.compute] raises nothing and returns a map that is NaN
    everywhere.  With the case of a response at the threshold this settles
    every well-formed image: the maximum of the result is 1 or the result
    is all NaN. *)
Theorem Canny_below_threshold_returns_nan_map (hp : heap) (img : ref)
    (im : array3) (blur : Z) (bl : array2) :
  cells hp img = A3 im -> rgb_image im ->
  Canny.blurred (A3 im) blur = Returned bl ->
  (forall i j, (i < length im)%nat -> (j < length (hd [] im))%nat ->
     exists q, at2 (convolve2d bl Canny.edge_filt) i j = Fin q /\
               q < 3 # 256) ->
  fst (Canny.compute img blur hp) = Returned (S (next hp)) /\
  cells (snd (Canny.compute img blur hp)) (S (next hp))
    = A2 (full (length im) (length (hd [] im)) NaN).
Proof.
  intros Hc Him Hb Hlow.
  destruct Him as (Hw & Hh & Hrows).
  assert (Him : rgb_image im) by (repeat split; assumption).
  assert (Sbl : shape2 (length im) (length (hd [] im)) bl).
  { unfold Canny.blurred in Hb.
    destruct (Canny.blur_filt blur) as [ker|e]; [|discriminate].
    injection Hb as <-.
    apply shape2_convolve2d; [now apply shape2_rgb2gray | exact Hw]. }
  set (w := length im) in *. set (h := length (hd [] im)) in *.
  assert (Th : map2d Canny.clamp (convolve2d bl Canny.edge_filt)
               = full w h (Fin 0)).
  { apply full_of_cells.
    - apply shape2_map2d. now apply shape2_convolve2d.
    - intros i j Hi Hj. destruct (Hlow i j Hi Hj) as (q & Eq & Hq).
      pose proof (shape2_convolve2d w h bl Canny.edge_filt Sbl Hw) as [L R].
      rewrite at2_map2d.
      + rewrite Eq. now apply clamp_below.
      + lia.
      + rewrite Forall_forall in R. rewrite R; [exact Hj|].
        apply nth_In. lia. }
  assert (Hd : Canny.dense_of bl = full w h (Fin 0)).
  { unfold Canny.dense_of. rewrite Th.
    now rewrite (convolve2d_full w h _ _ Hw Hh). }
  rewrite <- Hc in Hb.
  destruct (Canny_compute_run img blur hp bl Hb) as [_ Hrun].
  rewrite Hd, (amax_full w h (Fin 0) Hw Hh) in Hrun.
  destruct Hrun as [R1 R2]. split; [exact R1|].
  rewrite R2. unfold div2. now rewrite map2d_full.
Qed.

Lemma rgb_image_low_contrast : rgb_image Examples.low_contrast.
Proof.
  unfold rgb_image, Examples.low_contrast, Examples.grey. simpl.
  repeat split; try lia.
  repeat constructor; eexists; reflexivity.
Qed.

Lemma Canny_below_threshold_returns_nan_map_witness :
  fst (Canny.compute 0%nat 0 (Examples.heap_of (A3 Examples.low_contrast)))
  = Returned 2%nat /\
  cells (snd (Canny.compute 0%nat 0
                (Examples.heap_of (A3 Examples.low_contrast)))) 2%nat
  = A2 (full 3 3 NaN).
Proof.
  apply (Canny_below_threshold_returns_nan_map
           (Examples.heap_of (A3 Examples.low_contrast)) 0%nat
           Examples.low_contrast 0
           [[Fin 0; Fin 0; Fin 0]; [Fin 0; Fin (1 # 1000); Fin 0];
            [Fin 0; Fin 0; Fin 0]]).
  - reflexivity.
  - exact rgb_image_low_contrast.
  - vm_compute. reflexivity.
  - intros i j Hi Hj.
    change (length Examples.low_contrast) with 3%nat in Hi.
    change (length (hd [] Examples.low_contrast)) with 3%nat in Hj.
    destruct i as [|[|[|i]]]; try lia;
      destruct j as [|[|[|j]]]; try lia;
      eexists; (split; [vm_compute; reflexivity | reflexivity]).
Defined.

(** ** The range of the Sobel weight map *)

Lemma Forall_zip_with (P : fval -> Prop) (f : fval -> fval -> fval)
    (a b : array2) :
  (forall x y, P x -> P y -> P (f x y)) ->
  Forall (Forall P) a -> Forall (Forall P) b ->
  Forall (Forall P) (zip_with (zip_with f) a b).
Proof.
  intros Hf Ha. revert b.
  induction Ha as [|r a Hr _ IH]; intros b Hb; [constructor|].
  destruct Hb as [|s b Hs Hb]; [constructor|]. simpl.
  constructor; [|now apply IH].
  clear - Hf Hr Hs. revert s Hs.
  induction Hr as [|x r Hx _ IHr]; intros s Hs; [constructor|].
  destruct Hs as [|y s Hy Hs]; [constructor|]. simpl.
  constructor; [now apply Hf | now apply IHr].
Qed.

Lemma Forall_map2d (P Q : fval -> Prop) (f : fval -> fval) (a : array2) :
  (forall x, P x -> Q (f x)) ->
  Forall (Forall P) a -> Forall (Forall Q) (map2d f a).
Proof.
  intros Hf Ha. unfold map2d. apply Forall_forall. intros row Hrow.
  apply in_map_iff in Hrow. destruct Hrow as [r0 [<- Hr0]].
  apply Forall_forall. intros x Hx.
  apply in_map_iff in Hx. destruct Hx as [x0 [<- Hx0]].
  apply Hf. rewrite Forall_forall in Ha. specialize (Ha r0 Hr0).
  rewrite Forall_forall in Ha. now apply Ha.
Qed.

Lemma channel_finite (k : nat) (im : array3) :
  rgb_image im -> Forall (Forall finite) (channel k im).
Proof.
  intros (_ & _ & H). unfold channel.
  apply Forall_forall. intros row Hrow.
  apply in_map_iff in Hrow. destruct Hrow as [col [<- Hcol]].
  rewrite Forall_forall in H. destruct (H col Hcol) as [_ Hpx].
  apply Forall_forall. intros x Hx.
  apply in_map_iff in Hx. destruct Hx as [px [<- Hin]].
  rewrite Forall_forall in Hpx. destruct (Hpx px Hin) as [_ F].
  destruct (Nat.lt_ge_cases k (length px)) as [L|L].
  - rewrite Forall_forall in F. apply F. now apply nth_In.
  - rewrite nth_overflow by assumption. now exists 0.
Qed.

Lemma ints_finite (l : list (list Z)) : Forall (Forall finite) (Sobel.ints l).
Proof.
  unfold Sobel.ints. apply Forall_forall. intros row Hrow.
  apply in_map_iff in Hrow. destruct Hrow as [r0 [<- _]].
  apply Forall_forall. intros x Hx.
  apply in_map_iff in Hx. destruct Hx as [z [<- _]]. now eexists.
Qed.

Lemma zip_with_diag {A B : Type} (f : A -> A -> B) (l : list A) :
  zip_with f l l = map (fun x => f x x) l.
Proof. induction l as [|x l IH]; simpl; [reflexivity|]. now rewrite IH. Qed.

Lemma square_nonneg (x : fval) : finite x -> nonneg (fmul x x).
Proof.
  intros [q ->]. eexists. split; [reflexivity|].
  rewrite Qred_correct. nra.
Qed.

Lemma squares_nonneg (a : array2) :
  Forall (Forall finite) a -> Forall (Forall nonneg) (mul2 a a).
Proof.
  intros F. unfold mul2. rewrite zip_with_diag.
  apply Forall_forall. intros row Hrow.
  apply in_map_iff in Hrow. destruct Hrow as [r0 [<- Hr0]].
  rewrite zip_with_diag. apply Forall_forall. intros x Hx.
  apply in_map_iff in Hx. destruct Hx as [x0 [<- Hx0]].
  apply square_nonneg. rewrite Forall_forall in F. specialize (F r0 Hr0).
  rewrite Forall_forall in F. now apply F.
Qed.

Lemma fadd_nonneg (x y : fval) : nonneg x -> nonneg y -> nonneg (fadd x y).
Proof.
  intros (a & -> & Ha) (b & -> & Hb). eexists. split; [reflexivity|].
  rewrite Qred_correct. lra.
Qed.

(** A map without negative cells stays so when it is rescaled by 255 over
    a positive number. *)
Lemma rescale_nonneg (a : array2) (m : Q) :
  Forall (Forall nonneg) a -> 0 < m ->
  Forall (Forall nonneg) (times2 a (fdiv (Fin 255) (Fin m))).
Proof.
  intros N Hpos. rewrite (fdiv_fin_pos 255 m Hpos). unfold times2.
  apply (Forall_map2d nonneg nonneg); [|exact N].
  intros x (q & -> & Hq). unfold fin. cbn [fmul]. unfold fin.
  eexists. split; [reflexivity|]. rewrite !Qred_correct.
  assert (S : 0 <= 255 / m) by (apply Qle_shift_div_l; [exact Hpos|lra]).
  nra.
Qed.

Section SobelRange.
Context {lib : ImageLib}.

Lemma luminance_finite (im : array3) :
  rgb_image im -> Forall (Forall finite) (Sobel.luminance im).
Proof.
  intros Him. unfold Sobel.luminance, add2, scale2.
  repeat first
    [ apply (Forall_zip_with finite); [apply fadd_finite| |]
    | apply (Forall_map2d finite finite);
        [intros x Hx; apply fmul_finite; [now eexists|exact Hx]|]
    | now apply channel_finite ].
Qed.

Lemma g_of_nonneg (im : array3) (k_size : Z) :
  (forall x, nonneg x -> nonneg (np_sqrt x)) ->
  rgb_image im -> Forall (Forall nonneg) (Sobel.g_of im k_size).
Proof.
  intros Hsqrt Him. pose proof (luminance_finite im Him) as F.
  unfold Sobel.g_of.
  destruct (k_size =? 3)%Z; unfold Sobel.magnitude;
    apply (Forall_map2d nonneg nonneg _ _ Hsqrt);
    apply (Forall_zip_with nonneg); try apply fadd_nonneg;
    apply squares_nonneg; apply convolve2d_finite; try exact F;
    apply ints_finite.
Qed.

End SobelRange.

(** X16: when the square root keeps numbers that are not negative that
    way, and the gradient magnitude of a well-formed image has a positive
    maximum, every cell of the map that [Sobel.compute] returns is a number
    that is not negative: no cell is NaN, infinite or below zero. *)
Theorem Sobel_weights_not_negative {lib : ImageLib} (hp : heap)
    (img : ref) (im : array3) (k_size : Z) (m : Q) :
  (forall x, nonneg x -> nonneg (np_sqrt x)) ->
  cells hp img = A3 im -> rgb_image im ->
  k_size = 3%Z \/ k_size = 5%Z ->
  amax (Sobel.g_of im k_size) = Returned (Fin m) -> 0 < m ->
  exists w,
    fst (Sobel.compute img k_size hp) = Returned (next hp) /\
    cells (snd (Sobel.compute img k_size hp)) (next hp) = A2 w /\
    Forall (Forall nonneg) w.
Proof.
  intros Hsqrt Hc Him Hk Hm Hpos.
  assert (C : (3 <= length (hd [] (hd [] im)))%nat)
    by (rewrite (rgb_image_channels im Him); lia).
  destruct (Sobel_compute_run img k_size hp im Hc C Hk) as [_ Hrun].
  rewrite Hm in Hrun. destruct Hrun as [R1 R2].
  eexists. split; [exact R1|]. split; [exact R2|].
  apply rescale_nonneg; [|exact Hpos].
  now apply g_of_nonneg.
Qed.

Lemma sqrt_floor_nonneg (x : fval) :
  nonneg x -> nonneg (Examples.sqrt_floor x).
Proof.
  intros (q & -> & Hq). unfold Examples.sqrt_floor.
  eexists. split; [reflexivity|]. rewrite Qred_correct.
  assert (D : 0 < inject_Z (QDen q * 2 ^ 16)).
  { change 0 with (inject_Z 0). rewrite <- Zlt_Qlt. lia. }
  apply Qle_shift_div_l; [exact D|].
  rewrite Qmult_0_l. change 0 with (inject_Z 0). rewrite <- Zle_Qle.
  apply Z.sqrt_nonneg.
Qed.

Lemma Sobel_weights_not_negative_witness :
  exists w,
    fst (@Sobel.compute Examples.plain_lib 0%nat 5
           (Examples.heap_of (A3 Examples.one_white))) = Returned 1%nat /\
    cells (snd (@Sobel.compute Examples.plain_lib 0%nat 5
                  (Examples.heap_of (A3 Examples.one_white)))) 1%nat = A2 w /\
    Forall (Forall nonneg) w.
Proof.
  apply (@Sobel_weights_not_negative Examples.plain_lib
           (Examples.heap_of (A3 Examples.one_white)) 0%nat
           Examples.one_white 5 (926819 # 32768)).
  - exact sqrt_floor_nonneg.
  - reflexivity.
  - exact rgb_image_one_white.
  - right. reflexivity.
  - vm_compute. reflexivity.
  - reflexivity.
Defined.

(** ** The maximum of the Entropy weight map *)





Lemma positive_nonneg (x : fval) : positive x -> nonneg x.
Proof. intros (q & -> & H). exists q. split; [reflexivity|lra]. Qed.









Lemma nth_map_default {A B : Type} (f : A -> B) (l : list A) (n : nat)
    (da : A) (db : B) :
  f da = db -> nth n (map f l) db = f (nth n l da).
Proof. intros <-. apply map_nth. Qed.

Lemma at2_channel (c : nat) (im : array3) (i j : nat) :
  at2 (channel c im) i j = nth c (nth j (nth i im []) []) (Fin 0).
Proof.
  unfold at2, channel.
  rewrite (nth_map_default _ im i [] []) by reflexivity.
  rewrite (nth_map_default (fun px : list fval => nth c px (Fin 0))
             (nth i im []) j [] (Fin 0)) by (now destruct c).
  reflexivity.
Qed.

(** An image that varies is not constant. *)
Lemma varies_not_constant (im : array3) :
  rgb_image im -> varies im -> ~ constant im.
Proof.
  intros (Hw & Hh & Hall) (i & j & c & Hi & Hj & _ & Hne) [px Hconst].
  apply Hne. rewrite !at2_channel.
  assert (P : forall i j, (i < length im)%nat ->
                (j < length (hd [] im))%nat ->
                nth j (nth i im []) [] = px).
  { intros i' j' Hi' Hj'.
    rewrite Forall_forall in Hconst, Hall.
    pose proof (nth_In im [] Hi') as Hin.
    specialize (Hconst _ Hin). destruct (Hall _ Hin) as [L _].
    rewrite Forall_forall in Hconst. symmetry. apply Hconst.
    apply nth_In. now rewrite L. }
  rewrite (P i j Hi Hj), (P 0%nat 0%nat Hw Hh). apply feq_refl.
Qed.












